(** * EchoChamber: the interest-graph engine

    A shallow embedding of the state logic of [src/App.tsx] (vote and click
    handling, feed pagination, guard-analysis merge), of [analyzePostRisk]
    from the Gemini service module and of the two effects of
    [src/components/InterestGraph.tsx], together with the properties the
    specification states about them.

    React state cells are fields of a record; an event handler is a function
    from the record to the record, run to completion.  A click is rendered
    before the next event is taken, so the click handlers see the committed
    state; the loading flag, which is also written outside click handlers,
    is read by the pagination callbacks as the constant their render
    captured, and a re-render is an event of its own.  Weights and
    timestamps are integers ([Z]): the graph schema declares [val] an
    integer and [Date.now()] returns whole milliseconds.  Identities are
    strings compared with [===]. *)

From stdpp Require Import base list strings numbers.
From Stdlib Require Import ZArith QArith Lia.

Open Scope Z_scope.

(** ** Data model (the shapes of [types.ts], as used by the sources) *)

(** ['up' | 'down']; an absent, [null] or [undefined] vote is [None]. *)
Inductive Vote := up | down.

Inductive InteractionType := upvote | downvote | click.

Inductive NodeType := Subreddit | Topic.

Inductive AppState := LOGIN | ANALYZING | GRAPH_VIEW | SIMULATOR.

#[global] Instance Vote_eq_dec : EqDecision Vote.
Proof. solve_decision. Defined.

#[global] Instance NodeType_eq_dec : EqDecision NodeType.
Proof. solve_decision. Defined.

#[global] Instance AppState_eq_dec : EqDecision AppState.
Proof. solve_decision. Defined.

Record GuardAnalysis := mkGuard {
  isProvocative : bool;
  reasoning : string;
  manipulationType : option string
}.

Record RedditPost := mkPost {
  post_id : string;
  title : string;
  subreddit : string;
  author : string;
  content : string;
  topicId : string;
  upvotes : Z;
  comments : Z;
  userVote : option Vote;
  guardResult : option GuardAnalysis
}.

Record GraphNode := mkNode {
  node_id : string;
  node_type : NodeType;
  group : Z;
  val : Z;
  desc : option string;
  lastUpdated : option Z
}.

Record GraphLink := mkLink {
  source : string;
  target : string;
  value : Z
}.

Record GraphData := mkGraph {
  nodes : list GraphNode;
  links : list GraphLink
}.

(** [{ ...p, userVote: v }] *)
Definition with_userVote (p : RedditPost) (v : option Vote) : RedditPost :=
  mkPost (post_id p) (title p) (subreddit p) (author p) (content p)
         (topicId p) (upvotes p) (comments p) v (guardResult p).

(** [{ ...p, guardResult: r }] *)
Definition with_guardResult (p : RedditPost) (r : GuardAnalysis) : RedditPost :=
  mkPost (post_id p) (title p) (subreddit p) (author p) (content p)
         (topicId p) (upvotes p) (comments p) (userVote p) (Some r).

(** [{ ...node, val: v, lastUpdated: t }] *)
Definition with_val_stamp (n : GraphNode) (v t : Z) : GraphNode :=
  mkNode (node_id n) (node_type n) (group n) v (desc n) (Some t).

(** The state cells of the [App] component that the handlers below read or
    write ([username], [selectedNode], the search cells and [isGuardEnabled]
    are touched by none of them). *)
Record App := mkApp {
  state : AppState;
  graphData : GraphData;
  posts : list RedditPost;
  isLoadingPost : bool;
  activePost : option RedditPost
}.

(** ** Interaction state machine ([handleInteraction], App.tsx 112-178) *)

(** [Math.max(10, Math.min(180, x))] *)
Definition clamp (x : Z) : Z := Z.max 10 (Z.min 180 x).

(** Step 1 of [handleInteraction] (lines 117-140): from the interaction type
    and the post's current vote, the new vote and the weight change.
    [newVote] starts as [currentPost.userVote || null] and [weightChange]
    as [0]. *)
Definition applyInteraction (type : InteractionType) (vote : option Vote)
  : option Vote * Z :=
  match type with
  | click => (vote, 5)
  | upvote =>
      if bool_decide (vote = Some up) then (None, -25)
      else (Some up, if bool_decide (vote = Some down) then 45 else 25)
  | downvote =>
      if bool_decide (vote = Some down) then (None, 20)
      else (Some down, if bool_decide (vote = Some up) then -45 else -20)
  end.

Definition is_click (type : InteractionType) : bool :=
  match type with click => true | _ => false end.

(** The direction a vote button votes in. *)
Definition voteOf (type : InteractionType) : option Vote :=
  match type with upvote => Some up | downvote => Some down | click => None end.

(** [posts.find(p => p.id === postId)] *)
Definition findPost (postId : string) (ps : list RedditPost) : option RedditPost :=
  find (λ p, bool_decide (post_id p = postId)) ps.

(** Step 2: the updater given to [setPosts]. *)
Definition votePosts (type : InteractionType) (postId : string)
    (newVote : option Vote) (ps : list RedditPost) : list RedditPost :=
  map (λ p, if bool_decide (post_id p ≠ postId) then p
            else if is_click type then p
            else with_userVote p newVote) ps.

(** Step 3: the active post is synchronised only if it is the voted one. *)
Definition voteActive (type : InteractionType) (postId : string)
    (newVote : option Vote) (active : option RedditPost) : option RedditPost :=
  match active with
  | Some a =>
      if bool_decide (post_id a = postId)
      then (if is_click type then Some a else Some (with_userVote a newVote))
      else Some a
  | None => None
  end.

(** Step 4: the updater given to [setGraphData]; [now] is [Date.now()]. *)
Definition mutateNodes (topic : string) (weightChange now : Z)
    (ns : list GraphNode) : list GraphNode :=
  map (λ node, if bool_decide (node_id node = topic)
               then with_val_stamp node (clamp (val node + weightChange)) now
               else node) ns.

Definition handleInteraction (type : InteractionType) (topic postId : string)
    (now : Z) (s : App) : App :=
  match findPost postId (posts s) with
  | None => s
  | Some currentPost =>
      let '(newVote, weightChange) := applyInteraction type (userVote currentPost) in
      mkApp (state s)
            (if bool_decide (weightChange ≠ 0)
             then mkGraph (mutateNodes topic weightChange now (nodes (graphData s)))
                          (links (graphData s))
             else graphData s)
            (votePosts type postId newVote (posts s))
            (isLoadingPost s)
            (voteActive type postId newVote (activePost s))
  end.

(** ** Feed pagination ([fetchNewPost] and the scroll observer, App.tsx 50-109) *)

(** How a promise settled. *)
Inductive Settled (A : Type) :=
| Resolved (a : A)
| Rejected.
Arguments Resolved {A} a.
Arguments Rejected {A}.

(** The component state together with the requests that are in flight and
    what the callbacks in use have captured: [generating] counts the
    [generateNextPost] calls whose promise has not settled, [analysing]
    lists the ids of the posts whose [analyzePostRisk] promise has not
    settled, and [closureLoading] is the value [isLoadingPost] had in the
    last render whose effects have run, the constant that the
    [fetchNewPost] of that render and the observer it installed test.
    [setIsLoadingPost] writes the state cell, not that constant. *)
Record World := mkWorldAt {
  app : App;
  generating : nat;
  analysing : list string;
  closureLoading : bool
}.

(** A world whose callbacks were built by a render of its own state. *)
Definition mkWorld (s : App) (generating : nat) (analysing : list string) : World :=
  mkWorldAt s generating analysing (isLoadingPost s).

Definition set_loading (b : bool) (s : App) : App :=
  mkApp (state s) (graphData s) (posts s) b (activePost s).

Definition set_state (st : AppState) (s : App) : App :=
  mkApp st (graphData s) (posts s) (isLoadingPost s) (activePost s).

Definition set_active (a : option RedditPost) (s : App) : App :=
  mkApp (state s) (graphData s) (posts s) (isLoadingPost s) a.

(** [fetchNewPost] up to its [await]: the guard, the flag, the request. *)
Definition fetchNewPost (w : World) : World :=
  if closureLoading w then w
  else mkWorldAt (set_loading true (app w)) (S (generating w)) (analysing w)
                 (closureLoading w).

(** [fetchNewPost] after the [await] resolved with [newPost]: the post is
    appended, its guard analysis is started and not awaited, and the
    [finally] block clears the flag. *)
Definition fetchResolved (newPost : RedditPost) (w : World) : World :=
  let s := app w in
  mkWorldAt (mkApp (state s) (graphData s) (posts s ++ [newPost]) false (activePost s))
            (Nat.pred (generating w))
            (analysing w ++ [post_id newPost])
            (closureLoading w).

(** [fetchNewPost] after the [await] rejected: [catch] logs, [finally]
    clears the flag. *)
Definition fetchRejected (w : World) : World :=
  mkWorldAt (set_loading false (app w)) (Nat.pred (generating w)) (analysing w)
            (closureLoading w).

(** The [IntersectionObserver] callback.  The effect installs an observer
    only in the simulator and only while no post is open in the detail
    view; whether the screen is the simulator and whether a post is open
    change in the handlers of clicks only, which are rendered before
    another event is taken, so the observer in place is the one of their
    committed values.  The flag is also written after an [await] and from
    this callback: the one the callback tests, and the one the
    [fetchNewPost] it calls tests, are the constants of the render that
    installed the observer, which stays in place until the effect runs
    again. *)
Definition observerCallback (isIntersecting : bool) (w : World) : World :=
  if bool_decide (state (app w) ≠ SIMULATOR) then w
  else match activePost (app w) with
       | Some _ => w
       | None =>
           if isIntersecting && negb (closureLoading w)
           then fetchNewPost w else w
       end.

(** [startSimulator] *)
Definition startSimulator (w : World) : World :=
  fetchNewPost (mkWorldAt (set_state SIMULATOR (app w)) (generating w) (analysing w)
                          (closureLoading w)).

(** ** Guard analysis ([analyzePostRisk] and its merge, App.tsx 67-83) *)

(** What the call to the model gave: the call threw, or a response came
    whose [text] may be missing. *)
Inductive AiResponse :=
| CallThrew
| Response (text : option string).

(** [!text] *)
Definition falsy (text : option string) : bool :=
  match text with
  | None => true
  | Some t => bool_decide (t = EmptyString)
  end.

Definition analysisFailed : GuardAnalysis := mkGuard false "Analysis failed." None.

(** The tail of [analyzePostRisk] (lines 324-349 of the service module);
    [JSON_parse] is the runtime's parser followed by the cast to
    [GuardAnalysis], [None] when it throws. *)
Definition analyzePostRisk (JSON_parse : string → option GuardAnalysis)
    (resp : AiResponse) : Settled GuardAnalysis :=
  match resp with
  | CallThrew => Rejected
  | Response text =>
      if falsy text then Resolved analysisFailed
      else match text with
           | Some t => match JSON_parse t with
                       | Some r => Resolved r
                       | None => Rejected
                       end
           | None => Rejected
           end
  end.

(** The updater given to [setPosts] when the analysis resolves. *)
Definition mergeGuard (postId : string) (riskResult : GuardAnalysis)
    (ps : list RedditPost) : list RedditPost :=
  map (λ p, if bool_decide (post_id p = postId)
            then with_guardResult p riskResult else p) ps.

(** The updater given to [setActivePost] when the analysis resolves. *)
Definition mergeActive (postId : string) (riskResult : GuardAnalysis)
    (active : option RedditPost) : option RedditPost :=
  match active with
  | Some a => if bool_decide (post_id a = postId)
              then Some (with_guardResult a riskResult) else Some a
  | None => None
  end.

(** The [.then] callback of the analysis promise. *)
Definition onRiskResult (postId : string) (riskResult : GuardAnalysis)
    (s : App) : App :=
  mkApp (state s) (graphData s) (mergeGuard postId riskResult (posts s))
        (isLoadingPost s) (mergeActive postId riskResult (activePost s)).

(** The analysis promise has no rejection handler: a rejection runs no
    callback of the component. *)
Definition riskSettled (postId : string) (o : Settled GuardAnalysis)
    (s : App) : App :=
  match o with
  | Resolved riskResult => onRiskResult postId riskResult s
  | Rejected => s
  end.

Fixpoint remove_first (x : string) (l : list string) : list string :=
  match l with
  | [] => []
  | y :: l' => if bool_decide (y = x) then l' else y :: remove_first x l'
  end.

(** ** The event loop of the component *)

Inductive Event :=
| Login
| AnalysisComplete (r : Settled GraphData)
| StartSimulator
| Intersect (isIntersecting : bool)
| PostGenerated (newPost : RedditPost)
| PostFailed
| RiskSettled (postId : string) (o : Settled GuardAnalysis)
| CardInteract (i : nat) (type : InteractionType) (now : Z)
| DetailInteract (type : InteractionType) (now : Z)
| Back
| Rerender.

Definition on_app (f : App → App) (w : World) : World :=
  mkWorldAt (f (app w)) (generating w) (analysing w) (closureLoading w).

(** One event, run to completion.  A completion event is taken only when
    the request it completes is in flight; the user's events are not
    restricted to the screen that offers them, so the runs of the model
    include those of the application.  [CardInteract i] is the
    [onInteract] wrapper of the [i]-th card of the feed, which opens the
    post on a click before it calls [handleInteraction] with the card's
    [post.topicId] and [post.id]; [DetailInteract] is the one of the
    detail view, whose post is [activePost].  [Rerender] is the render
    that follows a state update, with its effects: the callbacks are
    rebuilt and the observer installed anew, on the flag as it is then.
    When it comes is the scheduler's choice, so a run may take any number
    of events between two renders. *)
Definition step (e : Event) (w : World) : World :=
  match e with
  | Login => on_app (set_state ANALYZING) w
  | AnalysisComplete (Resolved d) =>
      on_app (λ s, mkApp GRAPH_VIEW d (posts s) (isLoadingPost s) (activePost s)) w
  | AnalysisComplete Rejected => on_app (set_state LOGIN) w
  | StartSimulator => startSimulator w
  | Intersect b => observerCallback b w
  | PostGenerated newPost =>
      match generating w with O => w | S _ => fetchResolved newPost w end
  | PostFailed =>
      match generating w with O => w | S _ => fetchRejected w end
  | RiskSettled postId o =>
      if bool_decide (postId ∈ analysing w)
      then mkWorldAt (riskSettled postId o (app w)) (generating w)
                     (remove_first postId (analysing w)) (closureLoading w)
      else w
  | CardInteract i type now =>
      match posts (app w) !! i with
      | None => w
      | Some post =>
          on_app (λ s, handleInteraction type (topicId post) (post_id post) now
                         (if is_click type then set_active (Some post) s else s)) w
      end
  | DetailInteract type now =>
      match activePost (app w) with
      | None => w
      | Some post =>
          on_app (handleInteraction type (topicId post) (post_id post) now) w
      end
  | Back => on_app (set_active None) w
  | Rerender =>
      mkWorldAt (app w) (generating w) (analysing w) (isLoadingPost (app w))
  end.

Definition run (evs : list Event) (w : World) : World :=
  fold_left (λ w e, step e w) evs w.

Definition initialWorld : World :=
  mkWorld (mkApp LOGIN (mkGraph [] []) [] false None) O [].

Definition reachable (w : World) : Prop := ∃ evs, w = run evs initialWorld.

(** A run in which the re-render keeps up: every event is followed by its
    render before the next one is taken. *)
Definition promptRun (evs : list Event) (w : World) : World :=
  fold_left (λ w e, step Rerender (step e w)) evs w.

(** ** The interest graph component (InterestGraph.tsx) *)

(** A [circle] element of the drawing: the identity of the node object
    bound to it and the four attributes the component ever sets. *)
Record Circle := mkCircle {
  bound : string;
  r : Q;
  fill : string;
  stroke : string;
  strokeWidth : Z
}.

Inductive Ease := easeCubic | easeElastic.

(** One [.transition()] link of a chain: the attributes it drives and the
    values they have when it ends. *)
Record Stage := mkStage {
  duration : Z;
  ease : Ease;
  to_fill : option string;
  to_stroke : option string;
  to_strokeWidth : option Z;
  to_r : option Q
}.

Inductive TransitionKind := Flash | PassiveResize.

#[global] Instance TransitionKind_eq_dec : EqDecision TransitionKind.
Proof. solve_decision. Defined.

(** A transition chain started on the selection
    [svg.selectAll("circle").filter(nodeData => nodeData.id === d.id)]. *)
Record Transition := mkTransition {
  kind : TransitionKind;
  selected_id : string;
  stages : list Stage
}.

Definition fillOf (t : NodeType) : string :=
  match t with Subreddit => "#f97316" | Topic => "#6366f1" end.

Definition strokeOf (t : NodeType) : string :=
  match t with Subreddit => "#c2410c" | Topic => "#4338ca" end.

Definition endStage (st : Stage) (c : Circle) : Circle :=
  mkCircle (bound c)
           (default (r c) (to_r st))
           (default (fill c) (to_fill st))
           (default (stroke c) (to_stroke st))
           (default (strokeWidth c) (to_strokeWidth st)).

(** The states a circle passes through at the ends of the stages of a
    transition chain; a circle outside the selection is not animated. *)
Fixpoint playStages (sts : list Stage) (c : Circle) : list Circle :=
  match sts with
  | [] => []
  | st :: rest => endStage st c :: playStages rest (endStage st c)
  end.

Definition play (t : Transition) (c : Circle) : list Circle :=
  if bool_decide (bound c = selected_id t) then playStages (stages t) c else [].

(** The attributes of a circle once the chain has run. *)
Definition settle (t : Transition) (c : Circle) : Circle :=
  if bool_decide (bound c = selected_id t)
  then fold_left (λ c st, endStage st c) (stages t) c else c.

(** [hasUpdates]: set as soon as one transition was started. *)
Definition hasUpdates_of (trs : list Transition) : bool :=
  negb (bool_decide (trs = [])).

Section InterestGraph.

(** Positions are the simulation's floating-point coordinates; the
    component never computes with them.  [phyllotaxis i] is where the
    force simulation places the [i]-th node that comes without
    coordinates. *)
Variable Pos : Type.
Variable phyllotaxis : nat → Pos.

(** A node object of the simulation: the copy [{ ...d }] of the graph
    node plus the coordinates the simulation keeps on it. *)
Record SimNode := mkSimNode {
  datum : GraphNode;
  pos : Pos
}.

Record Simulation := mkSimulation {
  simNodes : list SimNode;
  simLinks : list GraphLink;
  running : bool
}.

Record Props := mkProps {
  data : GraphData;
  width : Z;
  height : Z
}.

(** The dependency array of the first effect. *)
Definition deps (p : Props) : nat * nat * Z * Z :=
  (length (nodes (data p)), length (links (data p)), width p, height p).

(** What persists between renders of one mounted component:
    [simulationRef], the circles the first effect drew under [svgRef]
    (transitions started later are reported by the render, not applied to
    them), the dependencies of the last run of the first effect ([None]
    before the first render) and whether that run returned its cleanup. *)
Record Graph := mkGraphView {
  simulationRef : option Simulation;
  svg : list Circle;
  lastDeps : option (nat * nat * Z * Z);
  hasCleanup : bool
}.

Definition unmounted : Graph := mkGraphView None [] None false.

Definition stop (sim : Simulation) : Simulation :=
  mkSimulation (simNodes sim) (simLinks sim) false.

(** The body of the first effect past its guard: the drawing is cleared,
    the nodes are copied and handed to a new simulation, one circle is
    drawn per node. *)
Definition seedNodes (ns : list GraphNode) : list SimNode :=
  imap (λ i d, mkSimNode d (phyllotaxis i)) ns.

Definition drawCircle (d : SimNode) : Circle :=
  mkCircle (node_id (datum d)) (inject_Z (val (datum d)))
           (fillOf (node_type (datum d))) (strokeOf (node_type (datum d))) 2.

Definition initSimulation (p : Props) : Graph :=
  let ns := seedNodes (nodes (data p)) in
  mkGraphView (Some (mkSimulation ns (links (data p)) true))
              (map drawCircle ns) (Some (deps p)) true.

(** The first effect, run because a dependency changed: first the cleanup
    of the previous run ([simulation.stop()]) if it returned one, then the
    body, which returns at once when there are no nodes.  The boolean
    tells whether the body built a new simulation. *)
Definition topologyEffect (p : Props) (g : Graph) : Graph * bool :=
  let g' := if hasCleanup g
            then mkGraphView (stop <$> simulationRef g) (svg g) (lastDeps g) false
            else g in
  if bool_decide (length (nodes (data p)) = 0%nat)
  then (mkGraphView (simulationRef g') (svg g') (Some (deps p)) false, false)
  else (initSimulation p, true).

(** Where the nodes of the current simulation are, and which they are. *)
Definition positions (g : Graph) : option (list Pos) :=
  (λ sim, pos <$> simNodes sim) <$> simulationRef g.

Definition identities (g : Graph) : option (list string) :=
  (λ sim, node_id ∘ datum <$> simNodes sim) <$> simulationRef g.

(** [newData.lastUpdated && (now - newData.lastUpdated) < 1000] *)
Definition recentlyUpdated (now : Z) (newData : GraphNode) : bool :=
  match lastUpdated newData with
  | Some t => negb (bool_decide (t = 0)) && bool_decide (now - t < 1000)
  | None => false
  end.

(** [Math.abs(oldVal - newData.val) > 0.1] *)
Definition sizeChanged (oldVal newVal : Z) : bool :=
  bool_decide (1 < 10 * Z.abs (oldVal - newVal)).

Definition flash (d : GraphNode) : Transition :=
  mkTransition Flash (node_id d)
    [ mkStage 150 easeCubic (Some "#ffffff") (Some "#ffffff") (Some 6)
              (Some (Qplus (Qmult (inject_Z (val d)) (Qmake 3 2)) (inject_Z 10)));
      mkStage 800 easeElastic (Some (fillOf (node_type d)))
              (Some (strokeOf (node_type d))) (Some 2)
              (Some (inject_Z (val d))) ].

Definition resize (d : GraphNode) : Transition :=
  mkTransition PassiveResize (node_id d)
    [ mkStage 300 easeCubic None None None (Some (inject_Z (val d))) ].

(** [data.nodes.find(n => n.id === d.id)] *)
Definition findNode (id : string) (ns : list GraphNode) : option GraphNode :=
  find (λ n, bool_decide (node_id n = id)) ns.

Definition with_val (n : GraphNode) (v : Z) : GraphNode :=
  mkNode (node_id n) (node_type n) (group n) v (desc n) (lastUpdated n).

(** The body of the [forEach] of the second effect for one simulation
    node: the node as it is left and the transition started, if any. *)
Definition updateNode (now : Z) (ns : list GraphNode) (d : SimNode)
  : SimNode * option Transition :=
  match findNode (node_id (datum d)) ns with
  | None => (d, None)
  | Some newData =>
      let oldVal := val (datum d) in
      let d' := mkSimNode (with_val (datum d) (val newData)) (pos d) in
      if recentlyUpdated now newData then (d', Some (flash (datum d')))
      else if sizeChanged oldVal (val newData) then (d', Some (resize (datum d')))
      else (d', None)
  end.

(** What a render did. *)
Record Outcome := mkOutcome {
  reseeded : bool;
  transitions : list Transition;
  reenergized : bool
}.

(** The second effect: every simulation node is matched by identity with
    the data, and if a transition was started ([hasUpdates]) the collide
    force is rebuilt and the simulation restarted at alpha 0.3. *)
Definition liveUpdate (now : Z) (p : Props) (g : Graph)
  : Graph * list Transition * bool :=
  match simulationRef g with
  | None => (g, [], false)
  | Some sim =>
      let res := updateNode now (nodes (data p)) <$> simNodes sim in
      let trs := omap snd res in
      let hasUpdates := hasUpdates_of trs in
      (mkGraphView
         (Some (mkSimulation (fst <$> res) (simLinks sim)
                             (if hasUpdates then true else running sim)))
         (svg g) (lastDeps g) (hasCleanup g),
       trs, hasUpdates)
  end.

(** One render of the mounted component followed by its effects, in
    declaration order.  [fresh] tells whether [data] is another object
    than at the previous render (the dependency of the second effect);
    on the first render both effects run. *)
Definition render (fresh : bool) (now : Z) (p : Props) (g : Graph)
  : Graph * Outcome :=
  let first := bool_decide (lastDeps g = None) in
  let '(g1, seeded) :=
    if bool_decide (lastDeps g ≠ Some (deps p))
    then topologyEffect p g else (g, false) in
  if first || fresh
  then let '(g2, trs, re) := liveUpdate now p g1 in
       (g2, mkOutcome seeded trs re)
  else (g1, mkOutcome seeded [] false).

End InterestGraph.

Arguments datum {Pos} _.
Arguments pos {Pos} _.
Arguments simNodes {Pos} _.
Arguments simLinks {Pos} _.
Arguments running {Pos} _.
Arguments simulationRef {Pos} _.
Arguments svg {Pos} _.
Arguments lastDeps {Pos} _.
Arguments hasCleanup {Pos} _.
Arguments mkSimNode {Pos} _ _.
Arguments mkSimulation {Pos} _ _ _.
Arguments mkGraphView {Pos} _ _ _ _.
Arguments stop {Pos} sim.
Arguments positions {Pos} g.
Arguments identities {Pos} g.
Arguments unmounted {Pos}.
Arguments seedNodes {Pos} phyllotaxis ns.
Arguments drawCircle {Pos} d.
Arguments initSimulation {Pos} phyllotaxis p.
Arguments topologyEffect {Pos} phyllotaxis p g.
Arguments updateNode {Pos} now ns d.
Arguments liveUpdate {Pos} now p g.
Arguments render {Pos} phyllotaxis fresh now p g.

(** ** Ticks of the simulation (InterestGraph.tsx 99-108, 193) *)

Section Ticks.

Variable Pos : Type.

(** While its timer runs, the simulation computes new coordinates for all
    its nodes and calls the tick handler, which moves every node group and
    link end to the coordinates of its node.  [ps] are the coordinates one
    tick computed, in the order of the nodes; they are the library's to
    choose.  A stopped simulation does not tick. *)
Definition tick (ps : list Pos) (g : Graph Pos) : Graph Pos :=
  match simulationRef g with
  | Some sim =>
      if running sim
      then mkGraphView
             (Some (mkSimulation
                      (imap (λ i d, mkSimNode (datum d) (default (pos d) (ps !! i)))
                            (simNodes sim))
                      (simLinks sim) true))
             (svg g) (lastDeps g) (hasCleanup g)
      else g
  | None => g
  end.

(** Once its alpha has decayed below the minimum the simulation stops its
    timer by itself; only [restart] sets it going again. *)
Definition cooled (g : Graph Pos) : Graph Pos :=
  mkGraphView (stop <$> simulationRef g) (svg g) (lastDeps g) (hasCleanup g).

End Ticks.

Arguments tick {Pos} ps g.
Arguments cooled {Pos} g.

(** The attributes of a circle once all the transitions of a cycle have
    run. *)
Definition settleAll (trs : list Transition) (c : Circle) : Circle :=
  fold_left (λ c t, settle t c) trs c.

(** ** Invariants of the event loop *)

(** The flag mirrors the request: one generation in flight when it is set,
    none when it is clear. *)
Definition flagMatchesRequest (w : World) : Prop :=
  generating w = if isLoadingPost (app w) then 1%nat else 0%nat.

(** The post open in the detail view is a copy of an item of the feed. *)
Definition activeInFeed (s : App) : Prop :=
  ∀ a, activePost s = Some a → post_id a ∈ post_id <$> posts s.

(** [q] is [p] in every field but the annotation. *)
Definition sameButGuard (p q : RedditPost) : Prop :=
  post_id q = post_id p ∧ title q = title p ∧ subreddit q = subreddit p ∧
  author q = author p ∧ content q = content p ∧ topicId q = topicId p ∧
  upvotes q = upvotes p ∧ comments q = comments p ∧ userVote q = userVote p.

(** ** Sample states *)

Definition gamingPost (v : option Vote) : RedditPost :=
  mkPost "p1" "Patch notes" "gaming" "u1" "text" "r/gaming" 120 4 v None.

Definition chessPost : RedditPost :=
  mkPost "p2" "Endgames" "chess" "u2" "text" "Chess" 48 9 None None.

Definition gamingNode (w : Z) : GraphNode :=
  mkNode "r/gaming" Subreddit 1 w (Some "games") None.

Definition chessNode : GraphNode :=
  mkNode "Chess" Topic 2 30 None None.

Definition sampleGraph (w : Z) : GraphData :=
  mkGraph [gamingNode w; chessNode] [mkLink "r/gaming" "Chess" 2].

Definition sampleApp (w : Z) (v : option Vote) : App :=
  mkApp SIMULATOR (sampleGraph w) [gamingPost v; chessPost] false None.

(** A mounted view of the sample graph at weight 50, with the naturals
    standing for the initial positions, and the props it is given once the
    post about [r/gaming] was upvoted at time 4500. *)
Definition spiral (i : nat) : nat := i.

Definition seededView : Graph nat :=
  (render spiral true 0 (mkProps (sampleGraph 50) 800 800) unmounted).1.

(** The same view once the simulation has cooled down. *)
Definition settledView : Graph nat := cooled seededView.

Definition upvotedProps : Props :=
  mkProps (graphData (handleInteraction upvote "r/gaming" "p1" 4500
                        (sampleApp 50 None))) 800 800.

(** ** Further notions used by the properties of the event loop *)

(** [q] is [p] in every field but the vote and the annotation. *)
Definition sameContent (p q : RedditPost) : Prop :=
  post_id q = post_id p ∧ title q = title p ∧ subreddit q = subreddit p ∧
  author q = author p ∧ content q = content p ∧ topicId q = topicId p ∧
  upvotes q = upvotes p ∧ comments q = comments p.

(** What of a node is not its weight or its timestamp. *)
Definition nodeShape (n : GraphNode) : string * NodeType * Z * option string :=
  (node_id n, node_type n, group n, desc n).

(** Two snapshots with the same links and, node by node, the same
    identity, type, group and description. *)
Definition sameTopology (g g' : GraphData) : Prop :=
  links g' = links g ∧ nodeShape <$> nodes g' = nodeShape <$> nodes g.

(** The events that install a new graph. *)
Definition regenerates (e : Event) : bool :=
  match e with AnalysisComplete (Resolved _) => true | _ => false end.

Definition weightsInRange (g : GraphData) : Prop :=
  ∀ n, n ∈ nodes g → 10 ≤ val n ≤ 180.


(** Every analysis in flight is the analysis of an item of the feed. *)
Definition pendingHaveItems (w : World) : Prop :=
  ∀ postId, postId ∈ analysing w → postId ∈ post_id <$> posts (app w).

(** The button that clears the vote the other button set. *)
Definition otherButton (type : InteractionType) : InteractionType :=
  match type with upvote => downvote | downvote => upvote | click => click end.

(** ** Dragging a node ([drag], InterestGraph.tsx 110-135) *)

Section Drag.

(** Coordinates are floating-point numbers the handlers only copy. *)
Variable Coord : Type.

(** [event.subject]: the dragged node's position and its pin. *)
Record Subject := mkSubject {
  sx : Coord;
  sy : Coord;
  fx : option Coord;
  fy : option Coord
}.

(** [event.active], [event.x], [event.y]. *)
Record DragEvent := mkDragEvent {
  active : nat;
  ev_x : Coord;
  ev_y : Coord
}.

(** What the handlers touch of the simulation: its alpha target and
    whether its timer runs. *)
Record DragSim := mkDragSim {
  alphaTarget : Q;
  timer : bool
}.

Definition dragstarted (event : DragEvent) (st : DragSim * Subject)
  : DragSim * Subject :=
  (if bool_decide (active event = 0%nat) then mkDragSim (3 # 10) true else st.1,
   mkSubject (sx st.2) (sy st.2) (Some (sx st.2)) (Some (sy st.2))).

Definition dragged (event : DragEvent) (st : DragSim * Subject)
  : DragSim * Subject :=
  (st.1, mkSubject (sx st.2) (sy st.2) (Some (ev_x event)) (Some (ev_y event))).

Definition dragended (event : DragEvent) (st : DragSim * Subject)
  : DragSim * Subject :=
  (if bool_decide (active event = 0%nat) then mkDragSim 0 (timer st.1) else st.1,
   mkSubject (sx st.2) (sy st.2) None None).

Inductive DragType := dragStart | dragMove | dragEnd.

(** The listeners of the drag behaviour [drag(sim)] returns: none when the
    graph is not interactive ([d3.drag().on("start", null)]). *)
Definition drag (interactive : bool) (type : DragType)
  : option (DragEvent → DragSim * Subject → DragSim * Subject) :=
  if negb interactive then None
  else Some match type with
            | dragStart => dragstarted
            | dragMove => dragged
            | dragEnd => dragended
            end.

(** One drag event dispatched to the behaviour. *)
Definition dispatch (interactive : bool) (te : DragType * DragEvent)
    (st : DragSim * Subject) : DragSim * Subject :=
  match drag interactive te.1 with
  | Some listener => listener te.2 st
  | None => st
  end.

(** A whole gesture: the start, the moves, the end. *)
Definition gesture (interactive : bool) (e0 : DragEvent) (moves : list DragEvent)
    (eN : DragEvent) (st : DragSim * Subject) : DragSim * Subject :=
  dispatch interactive (dragEnd, eN)
    (fold_left (λ st e, dispatch interactive (dragMove, e) st) moves
       (dispatch interactive (dragStart, e0) st)).

End Drag.

Arguments mkSubject {Coord} _ _ _ _.
Arguments sx {Coord} _.
Arguments sy {Coord} _.
Arguments fx {Coord} _.
Arguments fy {Coord} _.
Arguments mkDragEvent {Coord} _ _ _.
Arguments active {Coord} _.
Arguments ev_x {Coord} _.
Arguments ev_y {Coord} _.
Arguments dragstarted {Coord} event st.
Arguments dragged {Coord} event st.
Arguments dragended {Coord} event st.
Arguments drag {Coord} interactive type.
Arguments dispatch {Coord} interactive te st.
Arguments gesture {Coord} interactive e0 moves eN st.

(** ** The label of a node (InterestGraph.tsx 90, App.tsx 278) *)

(** Strings are sequences of bytes; the pattern searched for is ASCII, so
    its occurrences in the bytes of a string are its occurrences in the
    string. *)
Fixpoint dropChars (n : nat) (s : string) : string :=
  match n, s with
  | O, _ => s
  | S _, EmptyString => EmptyString
  | S n', String _ rest => dropChars n' rest
  end.

(** [s.replace(pat, '')] with a string pattern: the first occurrence of
    [pat] is removed. *)
Fixpoint removeFirst (pat s : string) {struct s} : string :=
  if String.prefix pat s then dropChars (String.length pat) s
  else match s with
       | EmptyString => EmptyString
       | String c rest => String c (removeFirst pat rest)
       end.

(** [d.type === 'subreddit' ? `r/${d.id.replace('r/', '')}` : d.id] *)
Definition nodeLabel (d : GraphNode) : string :=
  match node_type d with
  | Subreddit => "r/" +:+ removeFirst "r/" (node_id d)
  | Topic => node_id d
  end.

(** [pat] occurs somewhere in [s]. *)
Definition occursIn (pat s : string) : Prop := ∃ a b, s = a +:+ pat +:+ b.

(** ** Reddit activity ([fetchRedditUserActivity], [parseRedditResponse]
       and the choice of prompt in [generateUserGraph], service module
       17-114) *)

(** A statement completes normally with a value or throws. *)
Inductive Completion (A : Type) :=
| Normal (a : A)
| Throws.
Arguments Normal {A} a.
Arguments Throws {A}.

Definition andThen {A B : Type} (m : Completion A) (k : A → Completion B)
  : Completion B :=
  match m with
  | Normal a => k a
  | Throws => Throws
  end.

Section Reddit.

(** Numbers are the runtime's doubles; all the code asks of one is whether
    it is zero. *)
Variable Num : Type.
Variable isZero : Num → bool.

(** The values [response.json()] and [JSON.parse] produce, and
    [undefined], which reading a missing property gives. *)
#[local] Unset Elimination Schemes.
Inductive JSValue :=
| JUndefined
| JNull
| JBool (b : bool)
| JNum (x : Num)
| JStr (s : string)
| JArr (items : list JSValue)
| JObj (fields : list (string * JSValue)).
#[local] Set Elimination Schemes.

(** The own property [k] of a parsed object; of two fields with one name
    the later one counts. *)
Fixpoint lookupField (k : string) (fields : list (string * JSValue))
  : option JSValue :=
  match fields with
  | [] => None
  | (k', v) :: rest =>
      match lookupField k rest with
      | Some v' => Some v'
      | None => if bool_decide (k' = k) then Some v else None
      end
  end.

(** [v.k] for the property names the service reads ([error], [data],
    [children], [contents], [kind], [subreddit], [title], [body],
    [selftext], [score]), none of which a built-in prototype defines:
    reading one off [null] or [undefined] throws, off a parsed object
    gives the own property, off anything else gives [undefined]. *)
Definition get (v : JSValue) (k : string) : Completion JSValue :=
  match v with
  | JUndefined | JNull => Throws
  | JObj fields => Normal (default JUndefined (lookupField k fields))
  | _ => Normal JUndefined
  end.

Definition truthy (v : JSValue) : bool :=
  match v with
  | JUndefined | JNull => false
  | JBool b => b
  | JNum x => negb (isZero x)
  | JStr s => negb (bool_decide (s = EmptyString))
  | JArr _ | JObj _ => true
  end.

(** [children.length === 0] for a value that is not [null] or
    [undefined]. *)
Definition lengthIsZero (children : JSValue) : bool :=
  match children with
  | JArr items => bool_decide (items = [])
  | JStr s => bool_decide (s = EmptyString)
  | JObj fields =>
      match lookupField "length" fields with
      | Some (JNum x) => isZero x
      | _ => false
      end
  | _ => false
  end.

Record RedditActivity := mkActivity {
  act_kind : JSValue;
  act_subreddit : JSValue;
  act_title : JSValue;
  act_body : JSValue;
  act_score : JSValue
}.

(** [a] holds what the child of a listing says: its [kind], and of its
    [data] the [subreddit], [title] and [score], with the [body] when that
    is truthy and the [selftext] otherwise. *)
Definition describes (child : JSValue) (a : RedditActivity) : Prop :=
  ∃ d b,
    get child "kind" = Normal (act_kind a) ∧
    get child "data" = Normal d ∧
    get d "subreddit" = Normal (act_subreddit a) ∧
    get d "title" = Normal (act_title a) ∧
    get d "score" = Normal (act_score a) ∧
    get d "body" = Normal b ∧
    (if truthy b then act_body a = b else get d "selftext" = Normal (act_body a)).

(** The callback given to [children.map]. *)
Definition parseChild (child : JSValue) : Completion RedditActivity :=
  andThen (get child "kind") (λ kind,
  andThen (get child "data") (λ d,
  andThen (get d "subreddit") (λ sub,
  andThen (get d "title") (λ ttl,
  andThen (get d "body") (λ bdy,
  andThen (if truthy bdy then Normal bdy else get d "selftext") (λ text,
  andThen (get d "score") (λ sc,
  Normal (mkActivity kind sub ttl text sc)))))))).

(** [items.map(f)] when [f] may throw: the first throw ends the map. *)
Fixpoint mapThrowing {A B : Type} (f : A → Completion B) (items : list A)
  : Completion (list B) :=
  match items with
  | [] => Normal []
  | x :: rest =>
      andThen (f x) (λ y, andThen (mapThrowing f rest) (λ ys, Normal (y :: ys)))
  end.

Definition parseRedditResponse (json : JSValue) : Completion (list RedditActivity) :=
  andThen (get json "error") (λ err,
  if truthy err then Throws else
  andThen (get json "data") (λ d,
  if negb (truthy d) then Throws else
  andThen (get d "children") (λ children,
  if negb (truthy children) then Throws else
  if lengthIsZero children then Normal []
  else match children with
       | JArr items => mapThrowing parseChild items
       | _ => Throws
       end))).

(** What a [fetch] gave: it rejected, or a response came with its [ok]
    flag and what [response.json()] gives ([None] when that rejects). *)
Inductive FetchReply :=
| FetchRejected
| Replied (ok : bool) (json : option JSValue).

(** [JSON.parse] applied to a value (converted to a string and parsed);
    [None] when it throws. *)
Variable JSON_parse : JSValue → option JSValue.

(** The body of the first [try]: the wrapping proxy. *)
Definition viaAllOrigins (reply : FetchReply) : Completion (list RedditActivity) :=
  match reply with
  | FetchRejected => Throws
  | Replied ok json =>
      if negb ok then Throws
      else match json with
           | None => Throws
           | Some wrapper =>
               andThen (get wrapper "contents") (λ contents,
               if negb (truthy contents) then Throws
               else match JSON_parse contents with
                    | None => Throws
                    | Some redditJson => parseRedditResponse redditJson
                    end)
           end
  end.

(** The body of the second [try]: the direct proxy. *)
Definition viaCorsProxy (reply : FetchReply) : Completion (list RedditActivity) :=
  match reply with
  | FetchRejected => Throws
  | Replied ok json =>
      if negb ok then Throws
      else match json with
           | None => Throws
           | Some redditJson => parseRedditResponse redditJson
           end
  end.

(** Both [catch] blocks swallow what was thrown; the second returns
    [null]. *)
Definition fetchRedditUserActivity (reply1 reply2 : FetchReply)
  : option (list RedditActivity) :=
  match viaAllOrigins reply1 with
  | Normal activity => Some activity
  | Throws =>
      match viaCorsProxy reply2 with
      | Normal activity => Some activity
      | Throws => None
      end
  end.

(** [activity && activity.length > 0]: whether [generateUserGraph] builds
    its prompt from the activity log rather than from the user name. *)
Definition usesActivityLog (activity : option (list RedditActivity)) : bool :=
  match activity with
  | Some (_ :: _) => true
  | _ => false
  end.

End Reddit.

Arguments JUndefined {Num}.
Arguments JNull {Num}.
Arguments JBool {Num} b.
Arguments JNum {Num} x.
Arguments JStr {Num} s.
Arguments JArr {Num} items.
Arguments JObj {Num} fields.
Arguments lookupField {Num} k fields.
Arguments get {Num} v k.
Arguments truthy {Num} isZero v.
Arguments lengthIsZero {Num} isZero children.
Arguments mkActivity {Num} _ _ _ _ _.
Arguments act_kind {Num} _.
Arguments act_subreddit {Num} _.
Arguments act_title {Num} _.
Arguments act_body {Num} _.
Arguments act_score {Num} _.
Arguments describes {Num} isZero child a.
Arguments parseChild {Num} isZero child.
Arguments parseRedditResponse {Num} isZero json.
Arguments FetchRejected {Num}.
Arguments Replied {Num} ok json.
Arguments viaAllOrigins {Num} isZero JSON_parse reply.
Arguments viaCorsProxy {Num} isZero reply.
Arguments fetchRedditUserActivity {Num} isZero JSON_parse reply1 reply2.
Arguments usesActivityLog {Num} activity.

(** A sample reply of Reddit, with integers standing for the numbers: a
    comment and a post in a listing. *)
Definition isZeroZ (x : Z) : bool := bool_decide (x = 0).

Definition commentChild : JSValue Z :=
  JObj [("kind", JStr "t1");
        ("data", JObj [("subreddit", JStr "gaming"); ("body", JStr "nice");
                       ("score", JNum 3)])].

Definition postChild : JSValue Z :=
  JObj [("kind", JStr "t3");
        ("data", JObj [("subreddit", JStr "chess"); ("title", JStr "Endgames");
                       ("selftext", JStr "text"); ("score", JNum 10)])].

Definition listingData : JSValue Z :=
  JObj [("children", JArr [commentChild; postChild])].

Definition listing : JSValue Z :=
  JObj [("kind", JStr "Listing"); ("data", listingData)].

Definition listingActivity : list (RedditActivity Z) :=
  [mkActivity (JStr "t1") (JStr "gaming") JUndefined (JStr "nice") (JNum 3);
   mkActivity (JStr "t3") (JStr "chess") (JStr "Endgames") (JStr "text") (JNum 10)].

(** A parser that knows one string. *)
Definition parseListing (v : JSValue Z) : option (JSValue Z) :=
  match v with
  | JStr s => if bool_decide (s = "listing") then Some listing else None
  | _ => None
  end.

(** ** The loading screen (LoadingScreen.tsx) *)

Definition STEPS : list string :=
  [ "Ping Reddit API..."; "Scraping public comment history...";
    "Analyzing subreddit overlap..."; "Parsing karma distribution...";
    "Constructing Interest Graph..."; "Weighting semantic vectors...";
    "Finalizing simulation parameters..." ].

(** The state cell of the component, the timers it has armed and how
    often [onComplete] was called: [stepTimer] is the timeout that
    advances the step, [completeTimers] counts the armed
    [setTimeout(onComplete, 500)]. *)
Record Loading := mkLoading {
  stepIndex : nat;
  stepTimer : bool;
  completeTimers : nat;
  completions : nat
}.

(** One run of the effect, after the cleanup of the previous run, which
    clears the step timeout if that run armed one. *)
Definition loadingEffect (s : Loading) : Loading :=
  if bool_decide (length STEPS ≤ stepIndex s)%nat
  then mkLoading (stepIndex s) false (S (completeTimers s)) (completions s)
  else mkLoading (stepIndex s) true (completeTimers s) (completions s).

Definition loadingMounted : Loading := loadingEffect (mkLoading 0 false 0 0).

Inductive LoadingEvent :=
| StepTimeout
| CompleteTimeout
| ParentRerender.

(** [StepTimeout]: the armed step timeout fires, [setStepIndex(prev => prev
    + 1)] re-renders and the effect runs again for the new index.
    [CompleteTimeout]: an armed completion timeout fires and calls
    [onComplete].  [ParentRerender]: the parent renders again and passes a
    new [onComplete], the other dependency of the effect. *)
Definition loadingStep (e : LoadingEvent) (s : Loading) : Loading :=
  match e with
  | StepTimeout =>
      if stepTimer s
      then loadingEffect (mkLoading (S (stepIndex s)) false (completeTimers s)
                                    (completions s))
      else s
  | CompleteTimeout =>
      match completeTimers s with
      | O => s
      | S k => mkLoading (stepIndex s) (stepTimer s) k (S (completions s))
      end
  | ParentRerender => loadingEffect s
  end.

Definition loadingRun (evs : list LoadingEvent) (s : Loading) : Loading :=
  fold_left (λ s e, loadingStep e s) evs s.

Definition isParentRerender (e : LoadingEvent) : bool :=
  match e with ParentRerender => true | _ => false end.

(** What holds of the loading screen between events. *)
Definition loadingInvariant (s : Loading) : Prop :=
  (stepIndex s ≤ length STEPS)%nat ∧
  (stepTimer s = true ↔ (stepIndex s < length STEPS)%nat) ∧
  ((stepIndex s < length STEPS)%nat → completeTimers s = 0%nat ∧ completions s = 0%nat).

(** ** Asking the graph ([handleGraphSearch], App.tsx 181-195, and
       [searchGraphContext], service module 356-384) *)

Record SearchCells := mkSearch {
  searchQuery : string;
  isSearching : bool;
  searchResult : option string
}.

(** [response.text || "I couldn't find ..."], or the rejection of the
    call. *)
Definition searchGraphContext (resp : AiResponse) : Settled string :=
  match resp with
  | CallThrew => Rejected
  | Response text =>
      Resolved (match text with
                | Some t => if falsy text
                            then "I couldn't find a clear answer in your interest graph."
                            else t
                | None => "I couldn't find a clear answer in your interest graph."
                end)
  end.

(** [handleGraphSearch] up to its [await]; [trim] is the runtime's
    [String.prototype.trim].  The boolean tells whether a request was
    issued. *)
Definition searchSubmitted (trim : string → string) (s : SearchCells)
  : SearchCells * bool :=
  if falsy (Some (trim (searchQuery s))) then (s, false)
  else (mkSearch (searchQuery s) true None, true).

(** [handleGraphSearch] after the [await]: the answer, or the text of the
    [catch] block, and the [finally] block. *)
Definition searchSettled (o : Settled string) (s : SearchCells) : SearchCells :=
  match o with
  | Resolved answer => mkSearch (searchQuery s) false (Some answer)
  | Rejected => mkSearch (searchQuery s) false (Some "Neural network unavailable.")
  end.

(** * Properties *)

(** ** Interaction state machine *)

Lemma applyInteraction_nonzero type v : (applyInteraction type v).2 ≠ 0.
Proof.
  destruct type, v as [[]|]; simpl; repeat case_bool_decide; simpl; congruence.
Qed.

(** On a post of the feed the handler is exactly the three updaters. *)
Lemma handleInteraction_found type topic postId now s p :
  findPost postId (posts s) = Some p →
  handleInteraction type topic postId now s =
    mkApp (state s)
          (mkGraph (mutateNodes topic (applyInteraction type (userVote p)).2 now
                                (nodes (graphData s)))
                   (links (graphData s)))
          (votePosts type postId (applyInteraction type (userVote p)).1 (posts s))
          (isLoadingPost s)
          (voteActive type postId (applyInteraction type (userVote p)).1 (activePost s)).
Proof.
  intros Hp. unfold handleInteraction. rewrite Hp.
  pose proof (applyInteraction_nonzero type (userVote p)) as Hnz.
  destruct (applyInteraction type (userVote p)) as [nv d]; simpl in *.
  by rewrite bool_decide_eq_true_2.
Qed.

Lemma findPost_votePosts type postId nv ps :
  findPost postId (votePosts type postId nv ps) =
    (λ p, if is_click type then p else with_userVote p nv) <$> findPost postId ps.
Proof.
  unfold findPost, votePosts.
  induction ps as [|q ps IH]; simpl; [done|].
  destruct (decide (post_id q = postId)) as [Heq|Hne].
  - rewrite (bool_decide_eq_false_2 (post_id q ≠ postId)) by tauto.
    rewrite (bool_decide_eq_true_2 (post_id q = postId)) by done.
    destruct (is_click type); simpl; by rewrite bool_decide_eq_true_2.
  - rewrite (bool_decide_eq_true_2 (post_id q ≠ postId)) by done.
    by rewrite (bool_decide_eq_false_2 (post_id q = postId)).
Qed.

Lemma findPost_None postId ps :
  findPost postId ps = None ↔ ∀ p, p ∈ ps → post_id p ≠ postId.
Proof.
  unfold findPost. split.
  - intros H p Hin Heq. apply list_elem_of_In in Hin.
    pose proof (find_none _ _ H p Hin) as Hf. simpl in Hf.
    by rewrite bool_decide_eq_true_2 in Hf.
  - intros H. induction ps as [|q ps IH]; simpl; [done|].
    rewrite bool_decide_eq_false_2.
    + apply IH. intros p Hp. apply H. by right.
    + apply H. by left.
Qed.

Lemma mutateNodes_lookup topic d now ns i n :
  ns !! i = Some n →
  mutateNodes topic d now ns !! i =
    Some (if bool_decide (node_id n = topic)
          then with_val_stamp n (clamp (val n + d)) now else n).
Proof. intros H. unfold mutateNodes. by rewrite list_lookup_fmap, H. Qed.

Lemma clamp_range x : 10 ≤ clamp x ≤ 180.
Proof. unfold clamp. lia. Qed.

(** C1.  The transition table of the interaction state machine: an upvote
    from none gives (up, +25), from up (none, -25), from down (up, +45); a
    downvote from none gives (down, -20), from down (none, +20), from up
    (down, -45); a click leaves the vote as it is and gives +5. *)
Theorem applyInteraction_table :
  applyInteraction upvote None = (Some up, 25) ∧
  applyInteraction upvote (Some up) = (None, -25) ∧
  applyInteraction upvote (Some down) = (Some up, 45) ∧
  applyInteraction downvote None = (Some down, -20) ∧
  applyInteraction downvote (Some down) = (None, 20) ∧
  applyInteraction downvote (Some up) = (Some down, -45) ∧
  (∀ v, applyInteraction click v = (v, 5)).
Proof. repeat split. Qed.

(** The scenario of the specification, run through the handler: the node
    [r/gaming] at 50 goes to 75 on an upvote, back to 50 on a second upvote
    and to 30 on a downvote; a downvote straight from the upvoted state
    also lands on 30. *)
Example scenario_gaming :
  let s0 := sampleApp 50 None in
  let s1 := handleInteraction upvote "r/gaming" "p1" 1000 s0 in
  let s2 := handleInteraction upvote "r/gaming" "p1" 2000 s1 in
  let s3 := handleInteraction downvote "r/gaming" "p1" 3000 s2 in
  let s2' := handleInteraction downvote "r/gaming" "p1" 2000 s1 in
  val <$> nodes (graphData s1) = [75; 30] ∧ userVote <$> posts s1 = [Some up; None] ∧
  val <$> nodes (graphData s2) = [50; 30] ∧ userVote <$> posts s2 = [None; None] ∧
  val <$> nodes (graphData s3) = [30; 30] ∧ userVote <$> posts s3 = [Some down; None] ∧
  val <$> nodes (graphData s2') = [30; 30] ∧ userVote <$> posts s2' = [Some down; None].
Proof. vm_compute. repeat split. Qed.

(** C2.  After an interaction with a post of the feed, every node of the
    interacted topic carries [clamp (old + delta)], which lies in
    [10, 180] whatever the old weight was and moves an in-range weight by
    no more than the delta; every other node is the very same record, so
    nothing a clamp cut off is carried anywhere else.  An upvote from none
    at 175 gives 180. *)
Theorem weight_is_clamped_sum type topic postId now s p :
  findPost postId (posts s) = Some p →
  let delta := (applyInteraction type (userVote p)).2 in
  let s' := handleInteraction type topic postId now s in
  length (nodes (graphData s')) = length (nodes (graphData s)) ∧
  (∀ i n, nodes (graphData s) !! i = Some n →
     ∃ n', nodes (graphData s') !! i = Some n' ∧
       (node_id n = topic →
          val n' = clamp (val n + delta) ∧ 10 ≤ val n' ≤ 180 ∧
          (10 ≤ val n ≤ 180 → Z.abs (val n' - val n) ≤ Z.abs delta)) ∧
       (node_id n ≠ topic → n' = n)) ∧
  clamp (175 + (applyInteraction upvote None).2) = 180.
Proof.
  intros Hp delta s'. subst s'.
  rewrite (handleInteraction_found _ _ _ _ _ _ Hp). simpl. fold delta.
  split; [by unfold mutateNodes; rewrite length_map|].
  split; [|done].
  intros i n Hn. eexists. split; [by apply mutateNodes_lookup|].
  split.
  - intros Heq. rewrite bool_decide_eq_true_2 by done. simpl.
    split; [done|]. split; [apply clamp_range|].
    intros Hr. unfold clamp. lia.
  - intros Hne. by rewrite bool_decide_eq_false_2.
Qed.

Lemma weight_is_clamped_sum_witness :
  findPost "p1" (posts (sampleApp 175 None)) = Some (gamingPost None) ∧
  ∃ n', nodes (graphData (handleInteraction upvote "r/gaming" "p1" 1000
                            (sampleApp 175 None))) !! 0%nat = Some n' ∧
        val n' = 180.
Proof.
  split; [reflexivity|].
  destruct (weight_is_clamped_sum upvote "r/gaming" "p1" 1000
              (sampleApp 175 None) (gamingPost None) eq_refl)
    as (_ & Hall & _).
  destruct (Hall 0%nat (gamingNode 175) eq_refl) as (n' & Hn' & Hval & _).
  exists n'. split; [exact Hn'|].
  destruct (Hval eq_refl) as (Hv & _). rewrite Hv. reflexivity.
Defined.

(** C4, as the code has it.  An interaction with a post of the feed stamps
    every node of the interacted topic with the current time, whether or
    not the clamped weight differs from the weight before; the nodes of
    other topics keep the timestamp they had. *)
Theorem every_interaction_stamps type topic postId now s p :
  findPost postId (posts s) = Some p →
  let s' := handleInteraction type topic postId now s in
  ∀ i n, nodes (graphData s) !! i = Some n →
    ∃ n', nodes (graphData s') !! i = Some n' ∧
      (node_id n = topic → lastUpdated n' = Some now) ∧
      (node_id n ≠ topic → lastUpdated n' = lastUpdated n).
Proof.
  intros Hp s' i n Hn. subst s'.
  rewrite (handleInteraction_found _ _ _ _ _ _ Hp). simpl.
  eexists. split; [by apply mutateNodes_lookup|].
  split; intros H.
  - by rewrite bool_decide_eq_true_2.
  - by rewrite bool_decide_eq_false_2.
Qed.

Lemma every_interaction_stamps_witness :
  findPost "p1" (posts (sampleApp 180 None)) = Some (gamingPost None) ∧
  ∃ n', nodes (graphData (handleInteraction upvote "r/gaming" "p1" 1000
                            (sampleApp 180 None))) !! 0%nat = Some n' ∧
        lastUpdated n' = Some 1000.
Proof.
  split; [reflexivity|].
  destruct (every_interaction_stamps upvote "r/gaming" "p1" 1000
              (sampleApp 180 None) (gamingPost None) eq_refl
              0%nat (gamingNode 180) eq_refl) as (n' & Hn' & Hst & _).
  exists n'. split; [exact Hn' | exact (Hst eq_refl)].
Defined.

(** C4, as the claim has it, fails: an upvote on a post about a node that
    already sits at 180 leaves the weight at 180, and the node, which had
    no timestamp, is stamped with the current time all the same. *)
Lemma stamp_despite_unchanged_weight :
  let s := sampleApp 180 None in
  let s' := handleInteraction upvote "r/gaming" "p1" 1000 s in
  nodes (graphData s) !! 0%nat = Some (gamingNode 180) ∧
  lastUpdated (gamingNode 180) = None ∧
  nodes (graphData s') !! 0%nat =
    Some (mkNode "r/gaming" Subreddit 1 180 (Some "games") (Some 1000)).
Proof. vm_compute. repeat split. Qed.

Lemma votePosts_vote type postId nv ps q :
  is_click type = false → q ∈ votePosts type postId nv ps →
  post_id q = postId → userVote q = nv.
Proof.
  intros Hc Hin Hid. unfold votePosts in Hin.
  apply list_elem_of_fmap in Hin as (p & -> & _).
  rewrite Hc in *. case_bool_decide; [done|]. reflexivity.
Qed.

(** C9.  Voting the same way twice in a row on a post that did not carry
    that vote leaves every feed item of that identity without a vote; and
    from the state without a vote, a node of the topic whose weight neither
    application had to clamp is back at the weight it had before. *)
Theorem toggle_twice_restores type topic postId now1 now2 s p :
  type ≠ click →
  findPost postId (posts s) = Some p →
  let delta := (applyInteraction type None).2 in
  let s2 := handleInteraction type topic postId now2
              (handleInteraction type topic postId now1 s) in
  (userVote p ≠ voteOf type →
     ∀ q, q ∈ posts s2 → post_id q = postId → userVote q = None) ∧
  (userVote p = None →
     ∀ i n, nodes (graphData s) !! i = Some n → node_id n = topic →
       clamp (val n + delta) = val n + delta → clamp (val n) = val n →
       val <$> nodes (graphData s2) !! i = Some (val n)).
Proof.
  intros Hty Hp delta s2. subst s2.
  assert (Hc : is_click type = false) by (by destruct type).
  set (s1 := handleInteraction type topic postId now1 s).
  assert (Hs1 : s1 = handleInteraction type topic postId now1 s) by done.
  rewrite (handleInteraction_found _ _ _ _ _ _ Hp) in Hs1.
  assert (Hp1 : findPost postId (posts s1) =
                Some (with_userVote p (applyInteraction type (userVote p)).1)).
  { rewrite Hs1. simpl. rewrite findPost_votePosts, Hp. simpl. by rewrite Hc. }
  rewrite (handleInteraction_found _ _ _ _ _ _ Hp1). simpl.
  split.
  - intros Hne q Hq Hid.
    rewrite (votePosts_vote _ _ _ _ _ Hc Hq Hid).
    destruct type, (userVote p) as [[]|]; simpl in *; congruence.
  - intros Hnone i n Hn Hid Hc1 Hc2.
    rewrite Hs1. simpl. rewrite Hnone.
    erewrite mutateNodes_lookup; [|by apply mutateNodes_lookup].
    rewrite (bool_decide_eq_true_2 (node_id n = topic)) by done. simpl.
    rewrite (bool_decide_eq_true_2 (node_id n = topic)) by done. simpl.
    f_equal. fold delta. rewrite Hc1. rewrite <- Hc2 at 2. f_equal.
    subst delta. destruct type; simpl in *; try congruence; lia.
Qed.

Lemma toggle_twice_restores_witness :
  upvote ≠ click ∧
  findPost "p1" (posts (sampleApp 50 None)) = Some (gamingPost None) ∧
  (∀ q, q ∈ posts (handleInteraction upvote "r/gaming" "p1" 2000
                     (handleInteraction upvote "r/gaming" "p1" 1000
                        (sampleApp 50 None))) →
        post_id q = "p1" → userVote q = None) ∧
  val <$> nodes (graphData (handleInteraction upvote "r/gaming" "p1" 2000
                              (handleInteraction upvote "r/gaming" "p1" 1000
                                 (sampleApp 50 None)))) !! 0%nat = Some 50.
Proof.
  assert (Hty : upvote ≠ click) by discriminate.
  split; [exact Hty|]. split; [reflexivity|].
  destruct (toggle_twice_restores upvote "r/gaming" "p1" 1000 2000
              (sampleApp 50 None) (gamingPost None) Hty eq_refl) as [Hv Hw].
  split.
  - apply Hv. discriminate.
  - exact (Hw eq_refl 0%nat (gamingNode 50) eq_refl eq_refl eq_refl eq_refl).
Defined.

(** C10.  An interaction whose post identity is carried by no item of the
    feed changes nothing: the handler returns the state it was given, feed,
    votes, open post and graph included. *)
Theorem unknown_post_is_ignored type topic postId now s :
  (∀ p, p ∈ posts s → post_id p ≠ postId) →
  handleInteraction type topic postId now s = s.
Proof.
  intros H. unfold handleInteraction.
  by rewrite (proj2 (findPost_None postId (posts s)) H).
Qed.

Lemma unknown_post_is_ignored_witness :
  (∀ p, p ∈ posts (sampleApp 50 None) → post_id p ≠ "p9") ∧
  handleInteraction upvote "r/gaming" "p9" 1000 (sampleApp 50 None)
    = sampleApp 50 None.
Proof.
  assert (H : ∀ p, p ∈ posts (sampleApp 50 None) → post_id p ≠ "p9").
  { intros p Hp. simpl in Hp.
    apply elem_of_cons in Hp as [->|Hp]; [discriminate|].
    apply elem_of_cons in Hp as [->|Hp]; [discriminate|].
    by apply elem_of_nil in Hp. }
  split; [exact H|].
  exact (unknown_post_is_ignored upvote "r/gaming" "p9" 1000 (sampleApp 50 None) H).
Defined.

(** ** Invariants of the event loop *)

Lemma handleInteraction_loading type topic postId now s :
  isLoadingPost (handleInteraction type topic postId now s) = isLoadingPost s.
Proof.
  unfold handleInteraction. destruct (findPost postId (posts s)) as [p|]; [|done].
  by destruct (applyInteraction type (userVote p)).
Qed.

Lemma votePosts_ids type postId nv ps :
  post_id <$> votePosts type postId nv ps = post_id <$> ps.
Proof.
  unfold votePosts. rewrite <- list_fmap_compose. apply list_fmap_ext.
  intros i p _. simpl. case_bool_decide; [done|]. by destruct (is_click type).
Qed.

Lemma mergeGuard_ids postId r0 ps :
  post_id <$> mergeGuard postId r0 ps = post_id <$> ps.
Proof.
  unfold mergeGuard. rewrite <- list_fmap_compose. apply list_fmap_ext.
  intros i p _. simpl. by case_bool_decide.
Qed.

Lemma handleInteraction_activeInFeed type topic postId now s :
  activeInFeed s → activeInFeed (handleInteraction type topic postId now s).
Proof.
  intros Ha. unfold handleInteraction.
  destruct (findPost postId (posts s)) as [p|]; [|done].
  destruct (applyInteraction type (userVote p)) as [nv d].
  intros a. simpl. rewrite votePosts_ids. unfold voteActive.
  destruct (activePost s) as [a0|] eqn:Hact; [|done].
  specialize (Ha a0 Hact).
  case_bool_decide; [destruct (is_click type)|]; intros [= <-]; exact Ha.
Qed.

Lemma riskSettled_activeInFeed postId o s :
  activeInFeed s → activeInFeed (riskSettled postId o s).
Proof.
  intros Ha. destruct o as [r0|]; [|done].
  intros a. simpl. rewrite mergeGuard_ids. unfold mergeActive.
  destruct (activePost s) as [a0|] eqn:Hact; [|done].
  specialize (Ha a0 Hact).
  case_bool_decide; intros [= <-]; exact Ha.
Qed.

Lemma step_activeInFeed e w : activeInFeed (app w) → activeInFeed (app (step e w)).
Proof.
  intros Ha. destruct e as [|[d|]| |b|newPost| |postId o|i type now|type now| |];
    simpl; try exact Ha; try done.
  - unfold startSimulator, fetchNewPost. simpl.
    destruct (closureLoading w); exact Ha.
  - unfold observerCallback. case_bool_decide; [done|].
    destruct (activePost (app w)) eqn:Hact; [done|].
    destruct (b && negb (closureLoading w)); [|done].
    unfold fetchNewPost. destruct (closureLoading w); [done|].
    intros a. simpl. rewrite Hact. done.
  - destruct (generating w); [done|].
    intros a. simpl. intros Hact. rewrite fmap_app.
    apply elem_of_app. left. by apply Ha.
  - destruct (generating w); [done|]. exact Ha.
  - case_bool_decide; [|done]. simpl. by apply riskSettled_activeInFeed.
  - destruct (posts (app w) !! i) as [post|] eqn:Hi; [|done]. simpl.
    apply handleInteraction_activeInFeed.
    destruct (is_click type); [|done].
    intros a. simpl. intros [= <-].
    apply list_elem_of_fmap. exists post. split; [done|].
    by apply list_elem_of_lookup_2 in Hi.
  - destruct (activePost (app w)) as [post|]; [|done]. simpl.
    by apply handleInteraction_activeInFeed.
Qed.

Lemma run_snoc evs e w : run (evs ++ [e]) w = step e (run evs w).
Proof. unfold run. by rewrite fold_left_app. Qed.

Lemma run_invariant (P : World → Prop) :
  P initialWorld → (∀ e w, P w → P (step e w)) → ∀ evs, P (run evs initialWorld).
Proof.
  intros H0 Hstep evs. induction evs as [|e evs IH] using rev_ind; [done|].
  rewrite run_snoc. by apply Hstep.
Qed.

Lemma reachable_activeInFeed w : reachable w → activeInFeed (app w).
Proof.
  intros [evs ->].
  apply (run_invariant (λ w, activeInFeed (app w))); [by intros a|].
  intros. by apply step_activeInFeed.
Qed.

(** ** Guard-analysis merge *)

Lemma mergeGuard_lookup postId r0 ps i p :
  ps !! i = Some p →
  mergeGuard postId r0 ps !! i =
    Some (if bool_decide (post_id p = postId) then with_guardResult p r0 else p).
Proof. intros H. unfold mergeGuard. by rewrite list_lookup_fmap, H. Qed.

Lemma mergeGuard_absent postId r0 ps :
  (∀ p, p ∈ ps → post_id p ≠ postId) → mergeGuard postId r0 ps = ps.
Proof.
  intros H. unfold mergeGuard. induction ps as [|q ps IH]; simpl; [done|].
  rewrite bool_decide_eq_false_2 by (apply H; by left).
  f_equal. apply IH. intros p Hp. apply H. by right.
Qed.

Lemma mergeActive_absent postId r0 s :
  activeInFeed s → (∀ p, p ∈ posts s → post_id p ≠ postId) →
  mergeActive postId r0 (activePost s) = activePost s.
Proof.
  intros Ha H. unfold mergeActive.
  destruct (activePost s) as [a|] eqn:Hact; [|done].
  specialize (Ha a Hact).
  apply list_elem_of_fmap in Ha as (p & Hid & Hp).
  rewrite bool_decide_eq_false_2; [done|].
  rewrite Hid. by apply H.
Qed.

Lemma with_guardResult_same p r0 : sameButGuard p (with_guardResult p r0).
Proof. by repeat split. Qed.

(** C5.  When a guard analysis resolves, the merge runs on the feed as it
    is then: an item of the analysed identity gets the result as its
    annotation and keeps every other field, every other item is the same
    record at the same place, and graph, screen and loading flag are not
    touched.  When no item carries the identity the whole state is
    returned as it was. *)
Theorem guard_merge_by_identity postId riskResult s :
  activeInFeed s →
  let s' := onRiskResult postId riskResult s in
  state s' = state s ∧ graphData s' = graphData s ∧
  isLoadingPost s' = isLoadingPost s ∧
  length (posts s') = length (posts s) ∧
  (∀ i p, posts s !! i = Some p →
     ∃ q, posts s' !! i = Some q ∧
       (post_id p = postId → guardResult q = Some riskResult ∧ sameButGuard p q) ∧
       (post_id p ≠ postId → q = p)) ∧
  (∀ a, activePost s = Some a →
     ∃ b, activePost s' = Some b ∧
       (post_id a = postId → guardResult b = Some riskResult ∧ sameButGuard a b) ∧
       (post_id a ≠ postId → b = a)) ∧
  (activePost s = None → activePost s' = None) ∧
  ((∀ p, p ∈ posts s → post_id p ≠ postId) → s' = s).
Proof.
  intros Ha s'. subst s'. unfold onRiskResult. simpl.
  do 3 (split; [done|]).
  split; [by unfold mergeGuard; rewrite length_map|].
  split; [|split; [|split]].
  - intros i p Hp. eexists. split; [by apply mergeGuard_lookup|]. split.
    + intros Hid. rewrite bool_decide_eq_true_2 by done.
      split; [done | apply with_guardResult_same].
    + intros Hne. by rewrite bool_decide_eq_false_2.
  - intros a ->. simpl. case_bool_decide.
    + exists (with_guardResult a riskResult). split; [done|].
      split; [|done]. intros _. split; [done | apply with_guardResult_same].
    + exists a. by repeat split.
  - by intros ->.
  - intros Habs. rewrite mergeGuard_absent, mergeActive_absent by done.
    by destruct s.
Qed.

Lemma guard_merge_by_identity_witness :
  activeInFeed (sampleApp 50 None) ∧
  onRiskResult "p9" analysisFailed (sampleApp 50 None) = sampleApp 50 None ∧
  ∃ q, posts (onRiskResult "p2" analysisFailed (sampleApp 50 None)) !! 1%nat = Some q ∧
       guardResult q = Some analysisFailed ∧ userVote q = None.
Proof.
  assert (Ha : activeInFeed (sampleApp 50 None)) by (intros a; discriminate).
  split; [exact Ha|]. split.
  - destruct (guard_merge_by_identity "p9" analysisFailed (sampleApp 50 None) Ha)
      as (_ & _ & _ & _ & _ & _ & _ & Habs).
    apply Habs. intros p Hp. simpl in Hp.
    apply elem_of_cons in Hp as [->|Hp]; [discriminate|].
    apply elem_of_cons in Hp as [->|Hp]; [discriminate|].
    by apply elem_of_nil in Hp.
  - destruct (guard_merge_by_identity "p2" analysisFailed (sampleApp 50 None) Ha)
      as (_ & _ & _ & _ & Hitem & _).
    destruct (Hitem 1%nat chessPost eq_refl) as (q & Hq & Hhit & _).
    exists q. split; [exact Hq|].
    destruct (Hhit eq_refl) as (Hg & Hsame). split; [exact Hg|].
    unfold sameButGuard in Hsame. tauto.
Defined.

(** ** Guard-analysis failure *)

(** C6, as the claim has it, fails: when the model answers without text the
    analysis does not fail silently but resolves with a stand-in result,
    which is merged like any other, so the item does get an annotation. *)
Lemma failed_analysis_still_annotates :
  analyzePostRisk (λ _, None) (Response None) = Resolved analysisFailed ∧
  guardResult <$> posts (sampleApp 50 None) = [None; None] ∧
  guardResult <$> posts (riskSettled "p1"
                           (analyzePostRisk (λ _, None) (Response None))
                           (sampleApp 50 None))
    = [Some (mkGuard false "Analysis failed." None); None].
Proof. vm_compute. repeat split. Qed.

(** C6, as the code has it.  When the analysis of a post settles, no
    request of any kind is started and graph, screen and loading flag stay
    as they are.  If the call to the model or the parse of its answer
    threw, no state changes at all and the item stays without annotation;
    if the answer had no text, the stand-in result "Analysis failed." is
    merged into the items of that identity.  In every case an item of
    another identity is left as it was. *)
Theorem analysis_failure_outcome (JSON_parse : string → option GuardAnalysis)
    postId resp w :
  postId ∈ analysing w →
  let w' := step (RiskSettled postId (analyzePostRisk JSON_parse resp)) w in
  generating w' = generating w ∧
  analysing w' = remove_first postId (analysing w) ∧
  graphData (app w') = graphData (app w) ∧
  state (app w') = state (app w) ∧
  isLoadingPost (app w') = isLoadingPost (app w) ∧
  (∀ i p, posts (app w) !! i = Some p → post_id p ≠ postId →
          posts (app w') !! i = Some p) ∧
  match resp with
  | CallThrew => app w' = app w
  | Response text =>
      if falsy text
      then posts (app w') = mergeGuard postId analysisFailed (posts (app w))
      else match text ≫= JSON_parse with
           | None => app w' = app w
           | Some riskResult =>
               posts (app w') = mergeGuard postId riskResult (posts (app w))
           end
  end.
Proof.
  intros Hin w'. subst w'. simpl. rewrite bool_decide_eq_true_2 by done. simpl.
  split; [done|]. split; [done|].
  assert (Hother : ∀ r0 i p, posts (app w) !! i = Some p → post_id p ≠ postId →
            mergeGuard postId r0 (posts (app w)) !! i = Some p).
  { intros r0 i p Hp Hne. rewrite (mergeGuard_lookup _ _ _ _ _ Hp).
    by rewrite bool_decide_eq_false_2. }
  destruct resp as [|text]; simpl; [done|].
  destruct (falsy text) eqn:Hf; simpl; [by auto 10|].
  destruct text as [t|]; simpl; [|done].
  destruct (JSON_parse t) as [r0|]; simpl; [by auto 10 | done].
Qed.

Lemma analysis_failure_outcome_witness :
  let w := mkWorld (sampleApp 50 None) 0 ["p1"] in
  "p1" ∈ analysing w ∧
  app (step (RiskSettled "p1" (analyzePostRisk (λ _, None) CallThrew)) w) = app w ∧
  app (step (RiskSettled "p1" (analyzePostRisk (λ _, None) (Response (Some "{")))) w)
    = app w.
Proof.
  intros w.
  assert (Hin : "p1" ∈ analysing w) by (apply list_elem_of_here).
  split; [exact Hin|]. split.
  - exact (proj2 (proj2 (proj2 (proj2 (proj2 (proj2
      (analysis_failure_outcome (λ _, None) "p1" CallThrew w Hin))))))).
  - exact (proj2 (proj2 (proj2 (proj2 (proj2 (proj2
      (analysis_failure_outcome (λ _, None) "p1" (Response (Some "{")) w Hin))))))).
Defined.

(** ** Feed pagination *)

(** A trigger whose render saw the flag set does nothing, and neither does
    a direct call of that render's [fetchNewPost]. *)
Lemma trigger_that_saw_loading_is_noop isIntersecting w :
  closureLoading w = true →
  step (Intersect isIntersecting) w = w ∧ fetchNewPost w = w.
Proof.
  intros Hc. simpl. unfold observerCallback, fetchNewPost. rewrite Hc.
  rewrite andb_false_r. split; [|done].
  case_bool_decide; [done|]. by destruct (activePost (app w)).
Qed.

(** When the request in flight fails, the flag is cleared, the feed and
    the analyses are as they were and no request is started. *)
Lemma failure_clears_flag w :
  generating w ≠ 0%nat →
  isLoadingPost (app (step PostFailed w)) = false ∧
  posts (app (step PostFailed w)) = posts (app w) ∧
  analysing (step PostFailed w) = analysing w ∧
  generating (step PostFailed w) = Nat.pred (generating w).
Proof.
  intros Hg. simpl. destruct (generating w) as [|k] eqn:Hk; [done|].
  simpl. by rewrite Hk.
Qed.

Lemma promptStep_flagMatchesRequest e w :
  flagMatchesRequest w → closureLoading w = isLoadingPost (app w) →
  flagMatchesRequest (step Rerender (step e w)) ∧
  closureLoading (step Rerender (step e w)) = isLoadingPost (app (step Rerender (step e w))).
Proof.
  unfold flagMatchesRequest. intros Hf Hc. split; [|done]. simpl.
  destruct e as [|[d|]| |b|newPost| |postId o|i type now|type now| |];
    simpl; try exact Hf.
  - unfold startSimulator, fetchNewPost. simpl. rewrite Hc.
    destruct (isLoadingPost (app w)) eqn:Hl; simpl; [by rewrite Hl|].
    by rewrite Hf.
  - unfold observerCallback. case_bool_decide; [done|].
    destruct (activePost (app w)); [done|]. rewrite Hc.
    destruct (b && negb (isLoadingPost (app w))); [|done].
    unfold fetchNewPost. rewrite Hc.
    destruct (isLoadingPost (app w)) eqn:Hl; [by rewrite Hl|].
    simpl. by rewrite Hf.
  - destruct (generating w) as [|k] eqn:Hg; [by rewrite Hg|]. simpl.
    rewrite Hg. destruct (isLoadingPost (app w)); simpl; congruence.
  - destruct (generating w) as [|k] eqn:Hg; [by rewrite Hg|]. simpl.
    rewrite Hg. destruct (isLoadingPost (app w)); simpl; congruence.
  - case_bool_decide; [|done]. simpl. by destruct o.
  - destruct (posts (app w) !! i); [|done]. simpl.
    rewrite handleInteraction_loading. by destruct (is_click type).
  - destruct (activePost (app w)); [|done]. simpl.
    by rewrite handleInteraction_loading.
Qed.

(** When every event is rendered before the next one is taken, at most
    one generation request is ever in flight, and one is in flight exactly
    while the flag is set. *)
Lemma single_flight_if_rendered_between evs :
  let w := promptRun evs initialWorld in
  (generating w ≤ 1)%nat ∧ (isLoadingPost (app w) = true ↔ generating w = 1%nat).
Proof.
  intros w.
  assert (Hinv : flagMatchesRequest w ∧ closureLoading w = isLoadingPost (app w)).
  { subst w. unfold promptRun.
    induction evs as [|e evs IH] using rev_ind; [done|].
    rewrite fold_left_app. simpl. destruct IH as [Hf Hc].
    by apply promptStep_flagMatchesRequest. }
  destruct Hinv as [Hf _]. unfold flagMatchesRequest in Hf.
  destruct (isLoadingPost (app w)); split; first [lia | split; (done || lia)].
Qed.

(** C7 does not hold of the code.  The guard of [fetchNewPost] and the test
    of the observer read the flag their render captured, so of two
    visibility triggers that reach the same observer before the component
    has rendered again, the second finds the flag it tests still clear
    although the first has set the state cell: both issue a generation
    request, two are in flight, and both posts are appended when they
    resolve.  With the render in between the second trigger is the no-op
    the guard is there for. *)
Theorem double_trigger_issues_two_requests :
  let before := run [Login; AnalysisComplete (Resolved (sampleGraph 50));
                     StartSimulator; Rerender;
                     PostGenerated (gamingPost None); Rerender] initialWorld in
  let once := step (Intersect true) before in
  let twice := step (Intersect true) once in
  (generating before = 0%nat ∧ isLoadingPost (app before) = false ∧
   state (app before) = SIMULATOR ∧ activePost (app before) = None) ∧
  (generating once = 1%nat ∧ isLoadingPost (app once) = true) ∧
  generating twice = 2%nat ∧
  length (posts (app (run [PostGenerated chessPost; PostGenerated chessPost] twice)))
    = 3%nat ∧
  generating (step (Intersect true) (step Rerender once)) = 1%nat.
Proof. vm_compute. repeat split. Qed.

(** ** The interest graph component *)

Section InterestGraphProperties.

Variable Pos : Type.
Variable phyllotaxis : nat → Pos.

Lemma updateNode_pos now ns (d : SimNode Pos) : pos (updateNode now ns d).1 = pos d.
Proof.
  unfold updateNode. destruct (findNode _ ns) as [nd|]; [|done].
  destruct (recentlyUpdated now nd); [done|].
  by destruct (sizeChanged _ _).
Qed.

Lemma updateNode_id now ns (d : SimNode Pos) :
  node_id (datum (updateNode now ns d).1) = node_id (datum d).
Proof.
  unfold updateNode. destruct (findNode _ ns) as [nd|]; [|done].
  destruct (recentlyUpdated now nd); [done|].
  by destruct (sizeChanged _ _).
Qed.

Lemma updateNode_val now ns (d : SimNode Pos) nd :
  findNode (node_id (datum d)) ns = Some nd →
  val (datum (updateNode now ns d).1) = val nd.
Proof.
  unfold updateNode. intros ->.
  destruct (recentlyUpdated now nd); [done|].
  by destruct (sizeChanged _ _).
Qed.

(** In place: after the second effect the simulation node at each index
    carries the weight of the data node of its identity. *)
Lemma liveUpdate_reconciles now p (g : Graph Pos) sim i d nd :
  simulationRef g = Some sim →
  simNodes sim !! i = Some d →
  findNode (node_id (datum d)) (nodes (data p)) = Some nd →
  ∃ sim', simulationRef (liveUpdate now p g).1.1 = Some sim' ∧
    val ∘ datum <$> simNodes sim' !! i = Some (val nd).
Proof.
  intros Hsim Hd Hf. unfold liveUpdate. rewrite Hsim. simpl.
  eexists. split; [reflexivity|]. simpl.
  rewrite !list_lookup_fmap, Hd. simpl. f_equal.
  by apply updateNode_val.
Qed.

(** The transition one simulation node starts, by cases. *)
Lemma updateNode_transition now ns (d : SimNode Pos) :
  (updateNode now ns d).2 =
    match findNode (node_id (datum d)) ns with
    | None => None
    | Some nd =>
        if recentlyUpdated now nd
        then Some (flash (with_val (datum d) (val nd)))
        else if sizeChanged (val (datum d)) (val nd)
             then Some (resize (with_val (datum d) (val nd)))
             else None
    end.
Proof.
  unfold updateNode. destruct (findNode _ ns) as [nd|]; [|done].
  destruct (recentlyUpdated now nd); [done|].
  by destruct (sizeChanged _ _).
Qed.

(** The second effect moves no node, renames none and draws nothing. *)
Lemma liveUpdate_frame now p (g : Graph Pos) :
  svg (liveUpdate now p g).1.1 = svg g ∧
  lastDeps (liveUpdate now p g).1.1 = lastDeps g ∧
  hasCleanup (liveUpdate now p g).1.1 = hasCleanup g ∧
  positions (liveUpdate now p g).1.1 = positions g ∧
  identities (liveUpdate now p g).1.1 = identities g.
Proof.
  unfold positions, identities, liveUpdate.
  destruct (simulationRef g) as [sim|] eqn:Hsim; simpl; [|by rewrite Hsim].
  repeat split; f_equal; rewrite <- !list_fmap_compose;
    apply list_fmap_ext; intros i d _; simpl.
  - apply updateNode_pos.
  - apply updateNode_id.
Qed.

Lemma topologyEffect_spec p (g : Graph Pos) :
  (topologyEffect phyllotaxis p g).2 = negb (bool_decide (length (nodes (data p)) = 0%nat)) ∧
  lastDeps (topologyEffect phyllotaxis p g).1 = Some (deps p).
Proof. unfold topologyEffect. by case_bool_decide. Qed.

(** C3, as the code has it.  A render reseeds exactly when the
    dependencies of the first effect differ from those of its last run
    (node count, link count, width or height changed, or this is the
    first render) and the snapshot has at least one node; the reseed
    puts every node of the snapshot, in order, at its initial position.
    A render that keeps node count, link count, width and height does
    not reseed: it is the live update run on the existing simulation
    when the data object is new and nothing otherwise, the drawing is
    kept, and every simulation node keeps its place and identity. *)
Theorem reseed_iff_first_effect_runs fresh now p (g : Graph Pos) :
  let g' := (render phyllotaxis fresh now p g).1 in
  let out := (render phyllotaxis fresh now p g).2 in
  lastDeps g' = Some (deps p) ∧
  (reseeded out = true ↔
     lastDeps g ≠ Some (deps p) ∧ length (nodes (data p)) ≠ 0%nat) ∧
  (reseeded out = true →
     positions g' = Some (phyllotaxis <$> seq 0 (length (nodes (data p)))) ∧
     identities g' = Some (node_id <$> nodes (data p))) ∧
  (lastDeps g = Some (deps p) →
     reseeded out = false ∧
     (g', transitions out, reenergized out) =
       (if fresh then liveUpdate now p g else (g, [], false)) ∧
     svg g' = svg g ∧
     positions g' = positions g ∧ identities g' = identities g).
Proof.
  intros g' out. subst g' out. unfold render.
  destruct (decide (lastDeps g = Some (deps p))) as [Heq|Hne].
  - (* the first effect does not run *)
    rewrite (bool_decide_eq_false_2 (lastDeps g ≠ Some (deps p))) by tauto.
    rewrite (bool_decide_eq_false_2 (lastDeps g = None)) by congruence.
    simpl.
    pose proof (liveUpdate_frame now p g) as (Hsvg & Hdeps & _ & Hpos & Hid).
    destruct fresh; simpl.
    + destruct (liveUpdate now p g) as [[g2 trs] re] eqn:Hlu. simpl in *.
      split; [congruence|]. split; [split; [done | tauto]|].
      split; [done|]. intros _. done.
    + split; [done|]. split; [split; [done | tauto]|].
      split; [done|]. intros _. done.
  - (* the first effect runs *)
    rewrite (bool_decide_eq_true_2 (lastDeps g ≠ Some (deps p))) by done.
    pose proof (topologyEffect_spec p g) as [Hseed Hdeps].
    destruct (topologyEffect phyllotaxis p g) as [g1 seeded] eqn:Hte.
    simpl in Hseed, Hdeps.
    pose proof (liveUpdate_frame now p g1) as (_ & Hdeps2 & _ & Hpos & Hid).
    assert (Hg1 : seeded = true →
              positions g1 = Some (phyllotaxis <$> seq 0 (length (nodes (data p)))) ∧
              identities g1 = Some (node_id <$> nodes (data p))).
    { intros ->. unfold topologyEffect in Hte.
      case_bool_decide; [done|]. injection Hte as <-.
      unfold positions, identities. simpl. unfold seedNodes.
      split; f_equal; rewrite fmap_imap.
      - rewrite <- imap_seq_0. by apply imap_ext.
      - rewrite <- (imap_const node_id). by apply imap_ext. }
    assert (Hiff : seeded = true ↔
              lastDeps g ≠ Some (deps p) ∧ length (nodes (data p)) ≠ 0%nat).
    { rewrite Hseed. case_bool_decide; simpl; split; try done; tauto. }
    destruct (bool_decide (lastDeps g = None) || fresh); simpl.
    + destruct (liveUpdate now p g1) as [[g2 trs] re] eqn:Hlu. simpl in *.
      split; [congruence|]. split; [done|]. split; [|done].
      intros Hs. destruct (Hg1 Hs) as (Hp & Hi). split; congruence.
    + split; [done|]. split; [done|]. split; [done|]. done.
Qed.

Lemma liveUpdate_transitions now p (g : Graph Pos) sim t :
  simulationRef g = Some sim →
  t ∈ (liveUpdate now p g).1.2 ↔
  ∃ d, d ∈ simNodes sim ∧ (updateNode now (nodes (data p)) d).2 = Some t.
Proof.
  intros Hsim. unfold liveUpdate. rewrite Hsim. simpl.
  rewrite list_elem_of_omap. split.
  - intros (x & Hx & Ht). apply list_elem_of_fmap in Hx as (d & -> & Hd). eauto.
  - intros (d & Hd & Ht). exists (updateNode now (nodes (data p)) d).
    split; [|done]. apply list_elem_of_fmap. eauto.
Qed.

Lemma settleAll_untouched trs c :
  (∀ t, t ∈ trs → selected_id t ≠ bound c) → settleAll trs c = c.
Proof.
  unfold settleAll. induction trs as [|t trs IH]; intros Hno; simpl; [done|].
  assert (Ht : settle t c = c).
  { unfold settle. rewrite bool_decide_eq_false_2; [done|].
    intros Heq. apply (Hno t); [by left | done]. }
  rewrite Ht. apply IH. intros t' Ht'. apply Hno. by right.
Qed.

Lemma tick_positions (ps : list Pos) (g : Graph Pos) sim :
  simulationRef g = Some sim → running sim = true →
  length ps = length (simNodes sim) →
  positions (tick ps g) = Some ps.
Proof.
  intros Hsim Hrun Hlen. unfold positions, tick. rewrite Hsim, Hrun. simpl.
  f_equal. apply list_eq. intros i.
  rewrite list_lookup_fmap, list_lookup_imap.
  destruct (simNodes sim !! i) as [d|] eqn:Hd; simpl.
  - destruct (ps !! i) as [q|] eqn:Hq; [done|].
    apply lookup_lt_Some in Hd. apply lookup_ge_None in Hq. lia.
  - apply lookup_ge_None in Hd. symmetry. apply lookup_ge_None. lia.
Qed.

(** Every transition started by a live update is the pulse of a recently
    stamped node or the passive resize of another node whose size changed,
    with these stages. *)
Lemma liveUpdate_transition_shape now p (g : Graph Pos) sim t :
  simulationRef g = Some sim →
  t ∈ (liveUpdate now p g).1.2 →
  ∃ d newData, d ∈ simNodes sim ∧ selected_id t = node_id (datum d) ∧
    findNode (selected_id t) (nodes (data p)) = Some newData ∧
    ((recentlyUpdated now newData = true ∧ kind t = Flash ∧
      duration <$> stages t = [150; 800] ∧
      ease <$> stages t = [easeCubic; easeElastic] ∧
      ∀ c, bound c = selected_id t →
        play t c =
          [ mkCircle (bound c)
              (Qplus (Qmult (inject_Z (val newData)) (Qmake 3 2)) (inject_Z 10))
              "#ffffff" "#ffffff" 6;
            mkCircle (bound c) (inject_Z (val newData))
              (fillOf (node_type (datum d)))
              (strokeOf (node_type (datum d))) 2 ]) ∨
     (recentlyUpdated now newData = false ∧
      sizeChanged (val (datum d)) (val newData) = true ∧
      kind t = PassiveResize ∧
      duration <$> stages t = [300] ∧
      ∀ c, bound c = selected_id t →
        play t c =
          [ mkCircle (bound c) (inject_Z (val newData))
              (fill c) (stroke c) (strokeWidth c) ])).
Proof.
  intros Hsim Ht.
  apply (liveUpdate_transitions _ _ _ _ _ Hsim) in Ht as (d & Hd & Ht).
  rewrite updateNode_transition in Ht.
  destruct (findNode (node_id (datum d)) (nodes (data p))) as [nd|] eqn:Hf;
    [|done].
  exists d, nd.
  destruct (recentlyUpdated now nd) eqn:Hr.
  - injection Ht as <-. simpl. rewrite Hf.
    do 3 (split; [done|]). left. do 4 (split; [done|]).
    intros c Hc. unfold play. simpl. by rewrite bool_decide_eq_true_2.
  - destruct (sizeChanged (val (datum d)) (val nd)) eqn:Hc; [|done].
    injection Ht as <-. simpl. rewrite Hf.
    do 3 (split; [done|]). right. do 4 (split; [done|]).
    intros c Hb. unfold play. simpl. by rewrite bool_decide_eq_true_2.
Qed.

(** C8, as the code has it.  In one live update every transition that is
    started belongs to a simulation node matched in the data.  It is the
    pulse exactly when the matched node was stamped within the last
    second: 150 ms to white fill and stroke, stroke width 6 and radius
    1.5 times the new weight plus 10, then 800 ms of elastic easing back
    to the colours of the node type, stroke width 2 and the new weight as
    radius.  Otherwise it is the passive resize, started only because the
    size changed: 300 ms to the new radius, colours untouched.  Every
    recently stamped node gets the pulse and every other node whose size
    changed gets the resize.  A circle none of whose nodes is recent or
    resized keeps its size and colours through all the transitions of the
    cycle.  The effect itself assigns no coordinates, but positions are
    not kept: as soon as one transition is started the simulation is
    restarted, and each tick it then takes puts every node where the
    simulation computed. *)
Theorem flash_only_for_recent now p (g : Graph Pos) sim :
  simulationRef g = Some sim →
  let g' := (liveUpdate now p g).1.1 in
  let trs := (liveUpdate now p g).1.2 in
  (∀ t, t ∈ trs →
     ∃ d newData, d ∈ simNodes sim ∧ selected_id t = node_id (datum d) ∧
       findNode (selected_id t) (nodes (data p)) = Some newData ∧
       ((recentlyUpdated now newData = true ∧ kind t = Flash ∧
         duration <$> stages t = [150; 800] ∧
         ease <$> stages t = [easeCubic; easeElastic] ∧
         ∀ c, bound c = selected_id t →
           play t c =
             [ mkCircle (bound c)
                 (Qplus (Qmult (inject_Z (val newData)) (Qmake 3 2)) (inject_Z 10))
                 "#ffffff" "#ffffff" 6;
               mkCircle (bound c) (inject_Z (val newData))
                 (fillOf (node_type (datum d)))
                 (strokeOf (node_type (datum d))) 2 ]) ∨
        (recentlyUpdated now newData = false ∧
         sizeChanged (val (datum d)) (val newData) = true ∧
         kind t = PassiveResize ∧
         duration <$> stages t = [300] ∧
         ∀ c, bound c = selected_id t →
           play t c =
             [ mkCircle (bound c) (inject_Z (val newData))
                 (fill c) (stroke c) (strokeWidth c) ]))) ∧
  (∀ d newData, d ∈ simNodes sim →
     findNode (node_id (datum d)) (nodes (data p)) = Some newData →
     if recentlyUpdated now newData
     then flash (with_val (datum d) (val newData)) ∈ trs
     else if sizeChanged (val (datum d)) (val newData)
          then resize (with_val (datum d) (val newData)) ∈ trs
          else True) ∧
  (∀ c,
     (∀ d newData, d ∈ simNodes sim → node_id (datum d) = bound c →
        findNode (bound c) (nodes (data p)) = Some newData →
        recentlyUpdated now newData = false ∧
        sizeChanged (val (datum d)) (val newData) = false) →
     settleAll trs c = c) ∧
  svg g' = svg g ∧ positions g' = positions g ∧ identities g' = identities g ∧
  hasUpdates_of trs = (liveUpdate now p g).2 ∧
  (∀ ps, hasUpdates_of trs = true → length ps = length (simNodes sim) →
         positions (tick ps g') = Some ps).
Proof.
  intros Hsim g' trs. subst g' trs.
  pose proof (liveUpdate_frame now p g) as (Hsvg & _ & _ & Hpos & Hid).
  split; [|split; [|split; [|split; [done|split; [done|split; [done|split]]]]]].
  - intros t Ht. by apply (liveUpdate_transition_shape now p g sim t Hsim).
  - intros d nd Hd Hf.
    pose proof (updateNode_transition now (nodes (data p)) d) as Ht.
    rewrite Hf in Ht.
    destruct (recentlyUpdated now nd).
    + apply (liveUpdate_transitions _ _ _ _ _ Hsim). eauto.
    + destruct (sizeChanged (val (datum d)) (val nd)); [|done].
      apply (liveUpdate_transitions _ _ _ _ _ Hsim). eauto.
  - intros c Hc. apply settleAll_untouched. intros t Ht Heq.
    destruct (liveUpdate_transition_shape now p g sim t Hsim Ht)
      as (d & nd & Hd & Hsel & Hf & Hcase).
    rewrite Heq in Hsel, Hf.
    destruct (Hc d nd Hd (eq_sym Hsel) Hf) as [Hr Hs].
    destruct Hcase as [(Hr' & _)|(_ & Hs' & _)]; congruence.
  - unfold liveUpdate. by rewrite Hsim.
  - intros ps Hup Hlen. revert Hup. unfold liveUpdate. rewrite Hsim. simpl.
    intros Hup. eapply tick_positions; [reflexivity | simpl; by rewrite Hup |].
    simpl. by rewrite !length_fmap.
Qed.

(** What the flash does to a circle of its own node: white, bold and
    half again as large plus ten, then back to the colours of the node
    type at the new radius. *)
Lemma flash_play d c :
  bound c = node_id d →
  play (flash d) c =
    [ mkCircle (bound c)
        (Qplus (Qmult (inject_Z (val d)) (Qmake 3 2)) (inject_Z 10))
        "#ffffff" "#ffffff" 6;
      mkCircle (bound c) (inject_Z (val d))
        (fillOf (node_type d)) (strokeOf (node_type d)) 2 ].
Proof. intros H. unfold play. simpl. by rewrite bool_decide_eq_true_2. Qed.

End InterestGraphProperties.

(** C3, as the claim has it, fails in both directions.  When the snapshot
    changes from two nodes and one link to none, the first effect runs but
    returns at its guard: nothing is reseeded and the old nodes stay where
    they were.  When the counts stay and only the width changes, the view
    is reseeded. *)
Lemma reseed_not_exactly_on_count_change :
  lastDeps seededView = Some (2%nat, 1%nat, 800, 800) ∧
  deps (mkProps (mkGraph [] []) 800 800) = (0%nat, 0%nat, 800, 800) ∧
  reseeded (render spiral true 5000 (mkProps (mkGraph [] []) 800 800) seededView).2
    = false ∧
  positions (render spiral true 5000 (mkProps (mkGraph [] []) 800 800) seededView).1
    = positions seededView ∧
  deps (mkProps (sampleGraph 50) 600 800) = (2%nat, 1%nat, 600, 800) ∧
  reseeded (render spiral true 5000 (mkProps (sampleGraph 50) 600 800) seededView).2
    = true.
Proof. vm_compute. repeat split. Qed.

Lemma reseed_iff_first_effect_runs_witness :
  lastDeps seededView = Some (deps upvotedProps) ∧
  reseeded (render spiral true 5000 upvotedProps seededView).2 = false ∧
  positions (render spiral true 5000 upvotedProps seededView).1
    = positions seededView.
Proof.
  assert (Hd : lastDeps seededView = Some (deps upvotedProps)) by reflexivity.
  split; [exact Hd|].
  destruct (reseed_iff_first_effect_runs nat spiral true 5000 upvotedProps seededView)
    as (_ & _ & _ & Hsame).
  destruct (Hsame Hd) as (Hno & _ & _ & Hpos & _).
  split; [exact Hno | exact Hpos].
Defined.

Lemma flash_only_for_recent_witness :
  let sim := mkSimulation (seedNodes spiral (nodes (sampleGraph 50)))
                          (links (sampleGraph 50)) true in
  simulationRef seededView = Some sim ∧
  flash (mkNode "r/gaming" Subreddit 1 75 (Some "games") None)
    ∈ (liveUpdate 5000 upvotedProps seededView).1.2 ∧
  (liveUpdate 5000 upvotedProps seededView).1.2
    = [flash (mkNode "r/gaming" Subreddit 1 75 (Some "games") None)] ∧
  positions (tick [5%nat; 7%nat] (liveUpdate 5000 upvotedProps seededView).1.1)
    = Some [5%nat; 7%nat].
Proof.
  intros sim.
  assert (Hsim : simulationRef seededView = Some sim) by reflexivity.
  split; [exact Hsim|].
  destruct (flash_only_for_recent nat 5000 upvotedProps seededView sim Hsim)
    as (_ & Hcomplete & _ & _ & _ & _ & _ & Htick).
  split; [|split; [reflexivity|]].
  - exact (Hcomplete (mkSimNode (gamingNode 50) 0%nat)
             (mkNode "r/gaming" Subreddit 1 75 (Some "games") (Some 4500))
             (list_elem_of_here _ _) eq_refl).
  - exact (Htick [5%nat; 7%nat] eq_refl eq_refl).
Defined.

(** C8, as the claim has it, fails on the position of the other nodes.
    The simulation has stopped and a tick moves nobody.  One live update
    in which only [r/gaming] is recent starts the pulse on that node alone
    and restarts the simulation; the tick that follows moves the node
    [Chess] as well, from where it was to where the simulation puts it. *)
Lemma pulse_cycle_moves_other_nodes :
  let g' := (liveUpdate 5000 upvotedProps settledView).1.1 in
  positions settledView = Some [0%nat; 1%nat] ∧
  tick [5%nat; 7%nat] settledView = settledView ∧
  (λ t, (kind t, selected_id t)) <$> (liveUpdate 5000 upvotedProps settledView).1.2
    = [(Flash, "r/gaming")] ∧
  identities g' = Some ["r/gaming"; "Chess"] ∧
  positions g' = Some [0%nat; 1%nat] ∧
  (liveUpdate 5000 upvotedProps settledView).2 = true ∧
  positions (tick [5%nat; 7%nat] g') = Some [5%nat; 7%nat].
Proof. vm_compute. repeat split. Qed.

(** * Further properties of the sources *)

(** ** The feed and the graph across events *)

Lemma votePosts_lookup type postId nv ps i p :
  ps !! i = Some p →
  votePosts type postId nv ps !! i =
    Some (if bool_decide (post_id p ≠ postId) then p
          else if is_click type then p else with_userVote p nv).
Proof. intros H. unfold votePosts. by rewrite list_lookup_fmap, H. Qed.

Lemma sameContent_refl p : sameContent p p.
Proof. by repeat split. Qed.

Lemma sameContent_trans p q t : sameContent p q → sameContent q t → sameContent p t.
Proof. unfold sameContent. intros H1 H2. intuition congruence. Qed.

Lemma handleInteraction_item type topic postId now s i p :
  posts s !! i = Some p →
  ∃ q, posts (handleInteraction type topic postId now s) !! i = Some q ∧
       sameContent p q ∧ guardResult q = guardResult p.
Proof.
  intros Hp. unfold handleInteraction.
  destruct (findPost postId (posts s)) as [cur|]; [|by exists p; repeat split].
  destruct (applyInteraction type (userVote cur)) as [nv d]. simpl.
  rewrite (votePosts_lookup _ _ _ _ _ _ Hp).
  eexists. split; [reflexivity|].
  case_bool_decide; [by repeat split|].
  destruct (is_click type); by repeat split.
Qed.

Lemma step_item e w i p :
  posts (app w) !! i = Some p →
  ∃ q, posts (app (step e w)) !! i = Some q ∧ sameContent p q.
Proof.
  intros Hp.
  assert (Hsame : ∃ q, posts (app w) !! i = Some q ∧ sameContent p q)
    by (exists p; split; [done | apply sameContent_refl]).
  destruct e as [|[d|]| |b|newPost| |postId o|j type now|type now| |];
    simpl; try exact Hsame.
  - unfold startSimulator, fetchNewPost. simpl.
    by destruct (closureLoading w).
  - unfold observerCallback. case_bool_decide; [done|].
    destruct (activePost (app w)); [done|].
    destruct (b && negb (closureLoading w)); [|done].
    unfold fetchNewPost. by destruct (closureLoading w).
  - destruct (generating w); [done|]. simpl.
    exists p. split; [|apply sameContent_refl].
    apply lookup_app_l_Some. done.
  - by destruct (generating w).
  - case_bool_decide; [|done]. simpl. destruct o as [r0|]; [|done]. simpl.
    rewrite (mergeGuard_lookup _ _ _ _ _ Hp). eexists. split; [reflexivity|].
    case_bool_decide; by repeat split.
  - destruct (posts (app w) !! j) as [post|]; [|done]. simpl.
    destruct (handleInteraction_item type (topicId post) (post_id post) now
                (if is_click type then set_active (Some post) (app w) else app w)
                i p) as (q & Hq & Hc & _).
    { by destruct (is_click type). }
    eauto.
  - destruct (activePost (app w)) as [post|]; [|done]. simpl.
    destruct (handleInteraction_item type (topicId post) (post_id post) now
                (app w) i p Hp) as (q & Hq & Hc & _).
    eauto.
Qed.

(** X1.  An item, once in the feed, stays at its index through every run
    of events with the same identity, topic, counters and text: the feed
    is never reordered or shortened, and only an item's vote and
    annotation ever change. *)
Theorem feed_items_persist evs w i p :
  posts (app w) !! i = Some p →
  ∃ q, posts (app (run evs w)) !! i = Some q ∧ sameContent p q.
Proof.
  revert w p. induction evs as [|e evs IH]; intros w p Hp; simpl.
  - exists p. split; [done | apply sameContent_refl].
  - destruct (step_item e w i p Hp) as (q & Hq & Hpq).
    destruct (IH (step e w) q Hq) as (t & Ht & Hqt).
    exists t. split; [exact Ht | by eapply sameContent_trans].
Qed.

Lemma feed_items_persist_witness :
  let w := mkWorld (sampleApp 50 None) 1 [] in
  posts (app w) !! 1%nat = Some chessPost ∧
  ∃ q, posts (app (run [CardInteract 1 upvote 1000; PostGenerated (gamingPost None);
                        RiskSettled "p2" (Resolved analysisFailed)] w)) !! 1%nat
         = Some q ∧ topicId q = "Chess".
Proof.
  intros w. split; [reflexivity|].
  destruct (feed_items_persist
              [CardInteract 1 upvote 1000; PostGenerated (gamingPost None);
               RiskSettled "p2" (Resolved analysisFailed)] w 1%nat chessPost eq_refl)
    as (q & Hq & Hc).
  exists q. split; [exact Hq|]. unfold sameContent in Hc. simpl in Hc. tauto.
Defined.

Lemma mutateNodes_shape topic d now ns :
  nodeShape <$> mutateNodes topic d now ns = nodeShape <$> ns.
Proof.
  unfold mutateNodes. rewrite <- list_fmap_compose. apply list_fmap_ext.
  intros i n _. simpl. by case_bool_decide.
Qed.

Lemma handleInteraction_topology type topic postId now s :
  sameTopology (graphData s) (graphData (handleInteraction type topic postId now s)).
Proof.
  unfold handleInteraction, sameTopology.
  destruct (findPost postId (posts s)) as [cur|]; [|done].
  destruct (applyInteraction type (userVote cur)) as [nv d]. simpl.
  case_bool_decide; [|done]. simpl. split; [done | apply mutateNodes_shape].
Qed.

Lemma step_graph_cases e w :
  regenerates e = false →
  graphData (app (step e w)) = graphData (app w) ∨
  ∃ type topic postId now s,
    graphData s = graphData (app w) ∧
    graphData (app (step e w)) = graphData (handleInteraction type topic postId now s).
Proof.
  intros Hr.
  destruct e as [|[d|]| |b|newPost| |postId o|j type now|type now| |];
    simpl in *; try discriminate; try (by left).
  - left. unfold startSimulator, fetchNewPost. simpl.
    by destruct (closureLoading w).
  - left. unfold observerCallback. case_bool_decide; [done|].
    destruct (activePost (app w)); [done|].
    destruct (b && negb (closureLoading w)); [|done].
    unfold fetchNewPost. by destruct (closureLoading w).
  - left. by destruct (generating w).
  - left. by destruct (generating w).
  - left. case_bool_decide; [|done]. by destruct o.
  - destruct (posts (app w) !! j) as [post|]; [|by left]. right. simpl.
    exists type, (topicId post), (post_id post), now,
      (if is_click type then set_active (Some post) (app w) else app w).
    split; [by destruct (is_click type) | done].
  - destruct (activePost (app w)) as [post|]; [|by left]. right. simpl.
    by exists type, (topicId post), (post_id post), now, (app w).
Qed.

(** X2.  No event but the arrival of a generated graph changes the
    topology: votes, clicks, pagination and analyses leave the links and
    every node's identity, type, group and description as they are, so the
    node and link counts the layout depends on stay the same. *)
Theorem topology_is_stable e w :
  regenerates e = false →
  sameTopology (graphData (app w)) (graphData (app (step e w))) ∧
  length (nodes (graphData (app (step e w)))) = length (nodes (graphData (app w))) ∧
  length (links (graphData (app (step e w)))) = length (links (graphData (app w))).
Proof.
  intros Hr.
  assert (Htop : sameTopology (graphData (app w)) (graphData (app (step e w)))).
  { destruct (step_graph_cases e w Hr) as [->|(type & topic & postId & now & s & Hs & ->)].
    - by split.
    - rewrite <- Hs. apply handleInteraction_topology. }
  split; [exact Htop|]. destruct Htop as [Hl Hn]. split.
  - apply (f_equal length) in Hn. by rewrite !length_fmap in Hn.
  - by rewrite Hl.
Qed.

Lemma topology_is_stable_witness :
  let w := mkWorld (sampleApp 50 None) 0 [] in
  regenerates (CardInteract 0 downvote 1000) = false ∧
  length (nodes (graphData (app (step (CardInteract 0 downvote 1000) w)))) = 2%nat.
Proof.
  intros w.
  assert (Hr : regenerates (CardInteract 0 downvote 1000) = false) by reflexivity.
  split; [exact Hr|].
  exact (proj1 (proj2 (topology_is_stable (CardInteract 0 downvote 1000) w Hr))).
Defined.

Lemma handleInteraction_inRange type topic postId now s :
  weightsInRange (graphData s) →
  weightsInRange (graphData (handleInteraction type topic postId now s)).
Proof.
  intros Hw. unfold handleInteraction.
  destruct (findPost postId (posts s)) as [cur|]; [|done].
  destruct (applyInteraction type (userVote cur)) as [nv d]. simpl.
  case_bool_decide; [|done]. intros n Hn. simpl in Hn.
  unfold mutateNodes in Hn. apply list_elem_of_fmap in Hn as (m & -> & Hm).
  case_bool_decide; [apply clamp_range | by apply Hw].
Qed.

(** X3.  If every weight of the graph is within [10, 180], it is so after
    any run of events that installs no new graph: an interaction can only
    write a clamped weight, and nothing else writes weights. *)
Theorem weights_stay_in_range evs w :
  forallb (λ e, negb (regenerates e)) evs = true →
  weightsInRange (graphData (app w)) →
  weightsInRange (graphData (app (run evs w))).
Proof.
  revert w. induction evs as [|e evs IH]; intros w Hev Hw; simpl; [done|].
  simpl in Hev. apply andb_true_iff in Hev as [He Hev].
  apply negb_true_iff in He.
  apply IH; [done|].
  destruct (step_graph_cases e w He) as [->|(type & topic & postId & now & s & Hs & ->)];
    [done|].
  apply handleInteraction_inRange. by rewrite Hs.
Qed.

Lemma weights_stay_in_range_witness :
  let w := mkWorld (sampleApp 175 None) 0 [] in
  weightsInRange (graphData (app w)) ∧
  weightsInRange (graphData (app (run [CardInteract 0 upvote 1000;
                                       CardInteract 0 click 2000] w))).
Proof.
  intros w.
  assert (Hw : weightsInRange (graphData (app w))).
  { intros n Hn. simpl in Hn.
    apply elem_of_cons in Hn as [->|Hn]; [simpl; lia|].
    apply elem_of_cons in Hn as [->|Hn]; [simpl; lia|].
    by apply elem_of_nil in Hn. }
  split; [exact Hw|].
  exact (weights_stay_in_range [CardInteract 0 upvote 1000; CardInteract 0 click 2000]
           w eq_refl Hw).
Defined.

(** ** The detail view and the analyses in flight *)






(** X5.  While a post is open in the detail view, no event of the
    simulator screen starts a generation: visibility triggers are not
    taken and votes, clicks and completions issue none. *)
Theorem no_generation_while_post_open e w :
  activePost (app w) ≠ None → e ≠ StartSimulator →
  (generating (step e w) ≤ generating w)%nat ∧
  (isLoadingPost (app w) = false → isLoadingPost (app (step e w)) = false).
Proof.
  intros Hact Hs.
  destruct e as [|[d|]| |b|newPost| |postId o|i type now|type now| |];
    simpl; try done.
  - unfold observerCallback. case_bool_decide; [done|].
    by destruct (activePost (app w)).
  - destruct (generating w) eqn:Hg; simpl; rewrite ?Hg; (split; [lia|done]).
  - destruct (generating w) eqn:Hg; simpl; rewrite ?Hg; (split; [lia|done]).
  - case_bool_decide; [|done]. simpl. by destruct o.
  - destruct (posts (app w) !! i); [|done]. simpl.
    rewrite handleInteraction_loading. by destruct (is_click type).
  - destruct (activePost (app w)); [|done]. simpl.
    by rewrite handleInteraction_loading.
Qed.

Lemma no_generation_while_post_open_witness :
  let w := run [StartSimulator; PostGenerated (gamingPost None);
                CardInteract 0 click 1000] initialWorld in
  activePost (app w) ≠ None ∧ generating w = 0%nat ∧
  generating (step (Intersect true) w) = 0%nat.
Proof.
  intros w.
  assert (Ha : activePost (app w) ≠ None) by discriminate.
  assert (H1 : Intersect true ≠ StartSimulator) by discriminate.
  split; [exact Ha|]. split; [reflexivity|].
  pose proof (proj1 (no_generation_while_post_open (Intersect true) w Ha H1)) as Hle.
  change (generating w) with 0%nat in Hle.
  exact (proj1 (Nat.le_0_r _) Hle).
Defined.

Lemma handleInteraction_ids type topic postId now s :
  post_id <$> posts (handleInteraction type topic postId now s) = post_id <$> posts s.
Proof.
  unfold handleInteraction. destruct (findPost postId (posts s)) as [cur|]; [|done].
  destruct (applyInteraction type (userVote cur)) as [nv d]. simpl.
  apply votePosts_ids.
Qed.

Lemma remove_first_subset x y l : y ∈ remove_first x l → y ∈ l.
Proof.
  induction l as [|z l IH]; simpl; [done|].
  case_bool_decide.
  - intros Hy. by right.
  - intros Hy. apply elem_of_cons in Hy as [->|Hy]; [by left | right; by apply IH].
Qed.

Lemma step_pendingHaveItems e w : pendingHaveItems w → pendingHaveItems (step e w).
Proof.
  intros Hp. destruct e as [|[d|]| |b|newPost| |postId o|i type now|type now| |];
    simpl; try exact Hp.
  - unfold startSimulator, fetchNewPost. simpl.
    destruct (closureLoading w); exact Hp.
  - unfold observerCallback. case_bool_decide; [done|].
    destruct (activePost (app w)); [done|].
    destruct (b && negb (closureLoading w)); [|done].
    unfold fetchNewPost. destruct (closureLoading w); exact Hp.
  - destruct (generating w); [done|].
    intros id. simpl. rewrite fmap_app. intros Hid.
    apply elem_of_app in Hid as [Hid|Hid]; apply elem_of_app.
    + left. by apply Hp.
    + right. exact Hid.
  - destruct (generating w); [done|]. exact Hp.
  - case_bool_decide; [|done]. intros id. simpl. intros Hid.
    apply remove_first_subset in Hid. apply Hp in Hid.
    destruct o as [r0|]; simpl; [by rewrite mergeGuard_ids | done].
  - destruct (posts (app w) !! i) as [post|]; [|done].
    intros id. simpl. rewrite handleInteraction_ids. intros Hid.
    apply Hp in Hid. by destruct (is_click type).
  - destruct (activePost (app w)) as [post|]; [|done].
    intros id. simpl. rewrite handleInteraction_ids. by apply Hp.
Qed.

(** X6.  In every state the component can reach, an analysis in flight is
    the analysis of a post that is in the feed, so a result that resolves
    is never discarded: some item of that identity carries it
    afterwards. *)
Theorem resolved_analysis_lands w postId riskResult :
  reachable w → postId ∈ analysing w →
  ∃ i q, posts (app (step (RiskSettled postId (Resolved riskResult)) w)) !! i = Some q ∧
         post_id q = postId ∧ guardResult q = Some riskResult.
Proof.
  intros [evs ->] Hin.
  assert (Hp : pendingHaveItems (run evs initialWorld)).
  { apply run_invariant; [by intros id Hid; apply elem_of_nil in Hid|].
    intros. by apply step_pendingHaveItems. }
  specialize (Hp postId Hin).
  apply list_elem_of_fmap in Hp as (p & Hid & Hp).
  apply list_elem_of_lookup in Hp as [i Hi].
  exists i, (with_guardResult p riskResult). simpl.
  rewrite bool_decide_eq_true_2 by done. simpl.
  rewrite (mergeGuard_lookup _ _ _ _ _ Hi).
  by rewrite bool_decide_eq_true_2.
Qed.

Lemma resolved_analysis_lands_witness :
  let w := run [StartSimulator; PostGenerated (gamingPost None)] initialWorld in
  reachable w ∧ "p1" ∈ analysing w ∧
  ∃ i q, posts (app (step (RiskSettled "p1" (Resolved analysisFailed)) w)) !! i = Some q ∧
         post_id q = "p1" ∧ guardResult q = Some analysisFailed.
Proof.
  intros w.
  assert (Hr : reachable w)
    by (by exists [StartSimulator; PostGenerated (gamingPost None)]).
  assert (Hin : "p1" ∈ analysing w) by (apply list_elem_of_here).
  split; [exact Hr|]. split; [exact Hin|].
  exact (resolved_analysis_lands w "p1" analysisFailed Hr Hin).
Defined.

(** ** Order of merges and votes *)

Lemma with_guardResult_id p r0 : post_id (with_guardResult p r0) = post_id p.
Proof. done. Qed.

(** X7.  Analyses of two different posts may resolve in either order: the
    state after both merges is the same. *)
Theorem guard_merges_commute id1 id2 r1 r2 s :
  id1 ≠ id2 →
  onRiskResult id1 r1 (onRiskResult id2 r2 s) = onRiskResult id2 r2 (onRiskResult id1 r1 s).
Proof.
  intros Hne. unfold onRiskResult. simpl. f_equal.
  - unfold mergeGuard. rewrite <- !list_fmap_compose. apply list_fmap_ext.
    intros i p _. simpl. repeat (case_bool_decide; simpl in * ); first [done | congruence].
  - unfold mergeActive. destruct (activePost s) as [a|]; [|done].
    repeat (case_bool_decide; simpl in * ); first [done | congruence].
Qed.

Lemma guard_merges_commute_witness :
  "p1" ≠ "p2" ∧
  onRiskResult "p1" analysisFailed
    (onRiskResult "p2" (mkGuard true "bait" (Some "Rage Bait")) (sampleApp 50 None))
  = onRiskResult "p2" (mkGuard true "bait" (Some "Rage Bait"))
      (onRiskResult "p1" analysisFailed (sampleApp 50 None)).
Proof.
  assert (H : "p1" ≠ "p2") by discriminate.
  split; [exact H|].
  exact (guard_merges_commute "p1" "p2" analysisFailed
           (mkGuard true "bait" (Some "Rage Bait")) (sampleApp 50 None) H).
Defined.

(** X8.  If two results resolve for the same post, the later one wins:
    merging a second result leaves the state the second alone would
    leave. *)
Theorem guard_merge_last_wins postId r1 r2 s :
  onRiskResult postId r2 (onRiskResult postId r1 s) = onRiskResult postId r2 s.
Proof.
  unfold onRiskResult. simpl. f_equal.
  - unfold mergeGuard. rewrite <- !list_fmap_compose. apply list_fmap_ext.
    intros i p _. simpl. repeat (case_bool_decide; simpl in * ); first [done | congruence].
  - unfold mergeActive. destruct (activePost s) as [a|]; [|done].
    repeat (case_bool_decide; simpl in * ); first [done | congruence].
Qed.

Lemma findPost_mergeGuard id r0 postId ps :
  findPost postId (mergeGuard id r0 ps) =
    (λ p, if bool_decide (post_id p = id) then with_guardResult p r0 else p)
      <$> findPost postId ps.
Proof.
  unfold findPost, mergeGuard.
  induction ps as [|q ps IH]; simpl; [done|].
  assert (Hid : post_id (if bool_decide (post_id q = id)
                         then with_guardResult q r0 else q) = post_id q)
    by (by case_bool_decide).
  rewrite Hid. destruct (bool_decide (post_id q = postId)); [done | exact IH].
Qed.

(** X9.  A result that resolves and an interaction may come in either
    order: merging the annotation and then handling the vote or click
    gives the same state as handling it first and merging afterwards. *)
Theorem guard_merge_commutes_with_interaction id r0 type topic postId now s :
  onRiskResult id r0 (handleInteraction type topic postId now s)
  = handleInteraction type topic postId now (onRiskResult id r0 s).
Proof.
  unfold handleInteraction at 2. simpl. rewrite findPost_mergeGuard.
  unfold handleInteraction.
  destruct (findPost postId (posts s)) as [cur|]; simpl; [|done].
  assert (Hv : userVote (if bool_decide (post_id cur = id)
                         then with_guardResult cur r0 else cur) = userVote cur)
    by (by case_bool_decide).
  rewrite Hv.
  destruct (applyInteraction type (userVote cur)) as [nv d].
  unfold onRiskResult. simpl. f_equal.
  - unfold mergeGuard, votePosts. rewrite <- !list_fmap_compose.
    apply list_fmap_ext. intros i p _. simpl.
    destruct (is_click type);
      repeat (case_bool_decide; simpl in * ); first [done | congruence].
  - unfold mergeActive, voteActive. destruct (activePost s) as [a|]; [|done].
    destruct (is_click type);
      repeat (case_bool_decide; simpl in * ); first [done | congruence].
Qed.

(** X10.  A direct flip is the clearing of the old vote followed by the
    new vote: when clearing the old vote is not cut by the clamp on any
    node of the topic, pressing the other button first and then the
    button leaves the very state the button alone leaves (the -45 and +45
    of the table are -25 - 20 and +20 + 25). *)
Theorem flip_is_clear_then_apply type topic postId now1 now s p :
  type ≠ click →
  findPost postId (posts s) = Some p →
  userVote p = voteOf (otherButton type) →
  (∀ n, n ∈ nodes (graphData s) → node_id n = topic →
        clamp (val n + (applyInteraction (otherButton type) (userVote p)).2)
        = val n + (applyInteraction (otherButton type) (userVote p)).2) →
  handleInteraction type topic postId now
    (handleInteraction (otherButton type) topic postId now1 s)
  = handleInteraction type topic postId now s.
Proof.
  intros Hty Hp Hv Hclamp.
  assert (Hc : is_click (otherButton type) = false) by (by destruct type).
  set (s1 := handleInteraction (otherButton type) topic postId now1 s).
  assert (Hs1 : s1 = handleInteraction (otherButton type) topic postId now1 s) by done.
  rewrite (handleInteraction_found _ _ _ _ _ _ Hp) in Hs1.
  assert (Hp1 : findPost postId (posts s1) =
                Some (with_userVote p (applyInteraction (otherButton type) (userVote p)).1)).
  { rewrite Hs1. simpl. rewrite findPost_votePosts, Hp. simpl. by rewrite Hc. }
  rewrite (handleInteraction_found _ _ _ _ _ _ Hp1).
  rewrite (handleInteraction_found _ _ _ _ _ _ Hp).
  rewrite Hs1. simpl. rewrite Hv in *.
  f_equal; [f_equal|..].
  - unfold mutateNodes. rewrite <- list_fmap_compose. apply list_fmap_ext.
    intros i n Hn. simpl.
    apply list_elem_of_lookup_2 in Hn.
    destruct (decide (node_id n = topic)) as [Heq|Hne].
    + specialize (Hclamp n Hn Heq).
      rewrite (bool_decide_eq_true_2 (node_id n = topic)) by done. simpl.
      rewrite (bool_decide_eq_true_2 (node_id n = topic)) by done.
      unfold with_val_stamp. simpl. f_equal. rewrite Hclamp. f_equal.
      destruct type; simpl in *; try congruence; lia.
    + rewrite (bool_decide_eq_false_2 (node_id n = topic)) by done.
      by rewrite (bool_decide_eq_false_2 (node_id n = topic)).
  - unfold votePosts. rewrite <- list_fmap_compose. apply list_fmap_ext.
    intros i q _. simpl. rewrite Hc.
    destruct type; try congruence; simpl;
      repeat (case_bool_decide; simpl in * ); first [done | congruence].
  - unfold voteActive. rewrite Hc. destruct (activePost s) as [a|]; [|done].
    destruct type; try congruence; simpl;
      repeat (case_bool_decide; simpl in * ); first [done | congruence].
Qed.

Lemma flip_is_clear_then_apply_witness :
  downvote ≠ click ∧
  findPost "p1" (posts (sampleApp 75 (Some up))) = Some (gamingPost (Some up)) ∧
  handleInteraction downvote "r/gaming" "p1" 2000
    (handleInteraction upvote "r/gaming" "p1" 1000 (sampleApp 75 (Some up)))
  = handleInteraction downvote "r/gaming" "p1" 2000 (sampleApp 75 (Some up)).
Proof.
  assert (Hty : downvote ≠ click) by discriminate.
  split; [exact Hty|]. split; [reflexivity|].
  apply (flip_is_clear_then_apply downvote "r/gaming" "p1" 1000 2000
           (sampleApp 75 (Some up)) (gamingPost (Some up)) Hty eq_refl eq_refl).
  intros n Hn Hid. simpl in Hn.
  apply elem_of_cons in Hn as [->|Hn]; [reflexivity|].
  apply elem_of_cons in Hn as [->|Hn]; [discriminate Hid|].
  by apply elem_of_nil in Hn.
Defined.

(** ** From an interaction to the drawing *)

Lemma findNode_mutateNodes topic d now ns :
  findNode topic (mutateNodes topic d now ns) =
    (λ n, with_val_stamp n (clamp (val n + d)) now) <$> findNode topic ns.
Proof.
  unfold findNode, mutateNodes. induction ns as [|n ns IH]; simpl; [done|].
  destruct (decide (node_id n = topic)) as [Heq|Hne].
  - rewrite (bool_decide_eq_true_2 (node_id n = topic)) by done. simpl.
    by rewrite bool_decide_eq_true_2.
  - by rewrite !(bool_decide_eq_false_2 (node_id n = topic)).
Qed.

Lemma findNode_is_Some id ns n :
  n ∈ ns → node_id n = id → is_Some (findNode id ns).
Proof.
  unfold findNode. induction 1 as [n ns|n m ns Hin IH]; intros Hid; simpl.
  - by rewrite bool_decide_eq_true_2.
  - case_bool_decide; [done | by apply IH].
Qed.

Lemma sizeChanged_same v : sizeChanged v v = false.
Proof.
  unfold sizeChanged. apply bool_decide_eq_false_2. rewrite Z.sub_diag. simpl. lia.
Qed.

Section FromInteractionToDrawing.

Variable Pos : Type.
Variable phyllotaxis : nat → Pos.

Lemma render_lastDeps fresh now p (g : Graph Pos) :
  lastDeps (render phyllotaxis fresh now p g).1 = Some (deps p).
Proof.
  unfold render.
  assert (H1 : lastDeps (if bool_decide (lastDeps g ≠ Some (deps p))
                         then topologyEffect phyllotaxis p g else (g, false)).1
               = Some (deps p)).
  { case_bool_decide as Hd; simpl.
    - apply topologyEffect_spec.
    - destruct (decide (lastDeps g = Some (deps p))); [done | tauto]. }
  destruct (if bool_decide (lastDeps g ≠ Some (deps p))
            then topologyEffect phyllotaxis p g else (g, false)) as [g1 seeded].
  simpl in H1.
  destruct (bool_decide (lastDeps g = None) || fresh); [|done].
  pose proof (liveUpdate_frame Pos now p g1) as (_ & Hd & _).
  destruct (liveUpdate now p g1) as [[g2 trs] re]. simpl in *. congruence.
Qed.

(** X11.  A vote or click on a post makes the node of its topic flash at
    the next render, provided that render comes within a second: the
    graph given to the view has the same node and link counts, so the view
    is not reseeded, the simulation is re-energised, and a flash is
    started on the circle of the topic. *)
Theorem interaction_flashes_topic_node type topic postId now now' wd ht s p
    (g : Graph Pos) sim d n0 :
  findPost postId (posts s) = Some p →
  lastDeps g = Some (deps (mkProps (graphData s) wd ht)) →
  simulationRef g = Some sim →
  d ∈ simNodes sim → node_id (datum d) = topic →
  n0 ∈ nodes (graphData s) → node_id n0 = topic →
  now ≠ 0 → now' - now < 1000 →
  let s' := handleInteraction type topic postId now s in
  let out := (render phyllotaxis true now' (mkProps (graphData s') wd ht) g).2 in
  reseeded out = false ∧ reenergized out = true ∧
  ∃ t, t ∈ transitions out ∧ kind t = Flash ∧ selected_id t = topic.
Proof.
  intros Hp Hdeps Hsim Hd Hid Hn0 Hid0 Hnow Hrecent s' out. subst s' out.
  rewrite (handleInteraction_found _ _ _ _ _ _ Hp). simpl.
  set (delta := (applyInteraction type (userVote p)).2).
  set (p' := mkProps _ wd ht).
  assert (Hdeps' : lastDeps g = Some (deps p')).
  { rewrite Hdeps. unfold deps, p'. simpl. unfold mutateNodes.
    by rewrite length_map. }
  unfold render.
  rewrite (bool_decide_eq_false_2 (lastDeps g ≠ Some (deps p'))) by tauto.
  rewrite orb_true_r.
  destruct (findNode_is_Some topic _ n0 Hn0 Hid0) as [nd Hnd].
  assert (Hf : findNode (node_id (datum d)) (nodes (data p'))
               = Some (with_val_stamp nd (clamp (val nd + delta)) now)).
  { rewrite Hid. unfold p'. simpl. by rewrite findNode_mutateNodes, Hnd. }
  assert (Hr : recentlyUpdated now' (with_val_stamp nd (clamp (val nd + delta)) now) = true).
  { unfold recentlyUpdated. simpl.
    rewrite (bool_decide_eq_false_2 (now = 0)) by done.
    by rewrite bool_decide_eq_true_2. }
  pose proof (updateNode_transition Pos now' (nodes (data p')) d) as Ht.
  rewrite Hf, Hr in Ht.
  assert (Hin : flash (with_val (datum d) (clamp (val nd + delta)))
                ∈ (liveUpdate now' p' g).1.2).
  { apply (liveUpdate_transitions Pos now' p' g sim _ Hsim). eauto. }
  assert (Hre : (liveUpdate now' p' g).2 = true).
  { revert Hin. unfold liveUpdate. rewrite Hsim. simpl.
    unfold hasUpdates_of. intros Hin. apply negb_true_iff, bool_decide_eq_false_2.
    intros Hnil. rewrite Hnil in Hin. by apply elem_of_nil in Hin. }
  destruct (liveUpdate now' p' g) as [[g2 trs] re]. simpl in *.
  split; [done|]. split; [done|].
  eexists. split; [exact Hin|]. by split.
Qed.

Lemma render_idle_helper now p (g : Graph Pos) :
  lastDeps g = Some (deps p) →
  render phyllotaxis false now p g = (g, mkOutcome false [] false).
Proof.
  intros Hd. unfold render.
  rewrite (bool_decide_eq_false_2 (lastDeps g ≠ Some (deps p))) by tauto.
  by rewrite (bool_decide_eq_false_2 (lastDeps g = None)) by congruence.
Qed.

(** X12.  A render that follows another with the same props and the same
    data object does nothing: no reseed, no transition, no restart, and
    the view is left as the first render left it.  Re-renders of the
    parent for other reasons therefore do not disturb the graph. *)
Theorem rerender_with_same_data_is_idle fresh now now2 p (g : Graph Pos) :
  render phyllotaxis false now2 p (render phyllotaxis fresh now p g).1
  = ((render phyllotaxis fresh now p g).1, mkOutcome false [] false).
Proof. apply render_idle_helper, render_lastDeps. Qed.

(** X13.  A passive resize is started once per change: after a live
    update every simulation node carries the weight of its data node, so a
    second live update on the same data starts flashes only (for the nodes
    that are still recent) and no resize. *)
Theorem passive_resize_only_once now now2 p (g : Graph Pos) t :
  t ∈ (liveUpdate now2 p (liveUpdate now p g).1.1).1.2 → kind t = Flash.
Proof.
  destruct (simulationRef g) as [sim|] eqn:Hsim.
  - assert (Hsim1 : simulationRef (liveUpdate now p g).1.1
                    = Some (mkSimulation
                              (fst <$> (updateNode now (nodes (data p)) <$> simNodes sim))
                              (simLinks sim)
                              (if hasUpdates_of
                                    (omap snd (updateNode now (nodes (data p)) <$> simNodes sim))
                               then true else running sim))).
    { unfold liveUpdate. by rewrite Hsim. }
    intros Ht.
    apply (liveUpdate_transitions Pos now2 p _ _ t Hsim1) in Ht as (d1 & Hd1 & Ht).
    simpl in Hd1. rewrite <- list_fmap_compose in Hd1.
    apply list_elem_of_fmap in Hd1 as (d & -> & Hd). simpl in Ht.
    rewrite updateNode_transition in Ht.
    rewrite updateNode_id in Ht.
    destruct (findNode (node_id (datum d)) (nodes (data p))) as [nd|] eqn:Hf;
      [|done].
    rewrite (updateNode_val Pos now _ d nd Hf) in Ht.
    rewrite sizeChanged_same in Ht.
    destruct (recentlyUpdated now2 nd); [|done].
    by injection Ht as <-.
  - unfold liveUpdate at 2. rewrite Hsim. simpl.
    unfold liveUpdate. rewrite Hsim. simpl. intros Ht. by apply elem_of_nil in Ht.
Qed.

End FromInteractionToDrawing.

Lemma interaction_flashes_topic_node_witness :
  let s := sampleApp 50 None in
  let out := (render spiral true 5000
                (mkProps (graphData (handleInteraction upvote "r/gaming" "p1" 4500 s))
                         800 800) seededView).2 in
  findPost "p1" (posts s) = Some (gamingPost None) ∧
  lastDeps seededView = Some (deps (mkProps (graphData s) 800 800)) ∧
  reseeded out = false ∧ reenergized out = true ∧
  ∃ t, t ∈ transitions out ∧ kind t = Flash ∧ selected_id t = "r/gaming".
Proof.
  intros s out.
  assert (Hp : findPost "p1" (posts s) = Some (gamingPost None)) by reflexivity.
  assert (Hd : lastDeps seededView = Some (deps (mkProps (graphData s) 800 800)))
    by reflexivity.
  split; [exact Hp|]. split; [exact Hd|].
  assert (Hnow : 4500 ≠ 0) by discriminate.
  assert (Hrec : 5000 - 4500 < 1000) by reflexivity.
  exact (interaction_flashes_topic_node nat spiral upvote "r/gaming" "p1" 4500 5000
           800 800 s (gamingPost None) seededView
           (mkSimulation (seedNodes spiral (nodes (sampleGraph 50)))
                         (links (sampleGraph 50)) true)
           (mkSimNode (gamingNode 50) 0%nat) (gamingNode 50)
           Hp Hd eq_refl (list_elem_of_here _ _) eq_refl
           (list_elem_of_here _ _) eq_refl Hnow Hrec).
Defined.

Lemma passive_resize_only_once_witness :
  let t := flash (mkNode "r/gaming" Subreddit 1 75 (Some "games") None) in
  t ∈ (liveUpdate 5200 upvotedProps (liveUpdate 5000 upvotedProps seededView).1.1).1.2 ∧
  kind t = Flash.
Proof.
  intros t.
  assert (Hin : t ∈ (liveUpdate 5200 upvotedProps
                       (liveUpdate 5000 upvotedProps seededView).1.1).1.2)
    by (apply list_elem_of_here).
  split; [exact Hin|].
  exact (passive_resize_only_once nat 5000 5200 upvotedProps seededView t Hin).
Defined.

(** ** Dragging a node *)

Section DragProperties.

Variable Coord : Type.

Lemma moves_follow_pointer (moves : list (DragEvent Coord)) st :
  let st' := fold_left (λ st e, dispatch true (dragMove, e) st) moves st in
  st'.1 = st.1 ∧ sx st'.2 = sx st.2 ∧ sy st'.2 = sy st.2 ∧
  fx st'.2 = default (fx st.2) (Some ∘ ev_x <$> list.last moves) ∧
  fy st'.2 = default (fy st.2) (Some ∘ ev_y <$> list.last moves).
Proof.
  revert st. induction moves as [|e moves IH] using rev_ind; intros st; simpl.
  - done.
  - rewrite fold_left_app. simpl. rewrite list.last_snoc. simpl.
    destruct (IH st) as (H1 & H2 & H3 & _). by repeat split.
Qed.

(** X14.  A drag gesture on an interactive graph pins the node to the
    pointer while it lasts and always releases it at the end: the pin is
    first the node's own position, then the last pointer position, and
    after the end event there is none; the handlers never write the
    position itself, the simulation is woken at target 0.3 by a first
    gesture and sent back to target 0 when the last one ends.  On a graph
    that is not interactive a gesture changes nothing. *)
Theorem drag_gesture_pins_then_releases (e0 eN : DragEvent Coord) moves st :
  let held := fold_left (λ st e, dispatch true (dragMove, e) st) moves
                (dispatch true (dragStart, e0) st) in
  let st' := gesture true e0 moves eN st in
  fx held.2 = Some (default (sx st.2) (ev_x <$> list.last moves)) ∧
  fy held.2 = Some (default (sy st.2) (ev_y <$> list.last moves)) ∧
  held.1 = (if bool_decide (active e0 = 0%nat) then mkDragSim (3 # 10) true else st.1) ∧
  fx st'.2 = None ∧ fy st'.2 = None ∧
  sx st'.2 = sx st.2 ∧ sy st'.2 = sy st.2 ∧
  st'.1 = (if bool_decide (active eN = 0%nat)
           then mkDragSim 0 (timer held.1) else held.1) ∧
  gesture false e0 moves eN st = st.
Proof.
  intros held st'. subst held st'. unfold gesture.
  pose proof (moves_follow_pointer moves (dispatch true (dragStart, e0) st))
    as (H1 & H2 & H3 & H4 & H5).
  simpl in *. rewrite H1, H4, H5.
  split; [by destruct (list.last moves)|]. split; [by destruct (list.last moves)|].
  split; [done|].
  split; [done|]. split; [done|]. split; [exact H2|]. split; [exact H3|].
  split; [done|].
  unfold dispatch. simpl. clear. induction moves as [|e moves IH]; simpl; done.
Qed.

End DragProperties.

(** ** The label of a node *)

Lemma prefix_split pat s :
  String.prefix pat s = true → s = pat +:+ dropChars (String.length pat) s.
Proof.
  revert s. induction pat as [|a pat IH]; intros s; simpl; [done|].
  destruct s as [|b s]; simpl; [done|].
  destruct (Ascii.ascii_dec a b) as [->|]; [|done].
  intros H. change (String b s = String b (pat +:+ dropChars (String.length pat) s)).
  f_equal. by apply IH.
Qed.

Lemma removeFirst_cons pat c s :
  removeFirst pat (String c s) =
    if String.prefix pat (String c s)
    then dropChars (String.length pat) (String c s)
    else String c (removeFirst pat s).
Proof. reflexivity. Qed.

Lemma prefix_append pat rest : String.prefix pat (pat +:+ rest) = true.
Proof.
  induction pat as [|a pat IH]; simpl; [by destruct rest|].
  destruct (Ascii.ascii_dec a a) as [_|Hne]; [exact IH | by destruct Hne].
Qed.

Lemma dropChars_append pat rest : dropChars (String.length pat) (pat +:+ rest) = rest.
Proof. induction pat as [|a pat IH]; simpl; [by destruct rest | done]. Qed.

Lemma removeFirst_at_start pat rest : removeFirst pat (pat +:+ rest) = rest.
Proof.
  assert (Hunf : ∀ s, removeFirst pat s =
            if String.prefix pat s then dropChars (String.length pat) s
            else match s with
                 | EmptyString => EmptyString
                 | String c r0 => String c (removeFirst pat r0)
                 end) by (by intros []).
  by rewrite Hunf, prefix_append, dropChars_append.
Qed.

Lemma removeFirst_absent pat s : ¬ occursIn pat s → removeFirst pat s = s.
Proof.
  induction s as [|c s IH]; intros Hno.
  - by destruct pat.
  - rewrite removeFirst_cons. destruct (String.prefix pat (String c s)) eqn:Hp.
    + exfalso. apply Hno. apply prefix_split in Hp.
      exists "", (dropChars (String.length pat) (String c s)). exact Hp.
    + f_equal. apply IH. intros (a & b & ->). apply Hno.
      by exists (String c a), b.
Qed.

Lemma length_append_string a b :
  String.length (a +:+ b) = (String.length a + String.length b)%nat.
Proof. induction a as [|c a IH]; simpl; [done | by rewrite IH]. Qed.

(** Where the pattern occurs, exactly one occurrence is taken out. *)
Lemma removeFirst_present pat s :
  occursIn pat s →
  (String.length (removeFirst pat s) + String.length pat)%nat = String.length s.
Proof.
  induction s as [|c s IH]; intros (a & b & Hs).
  - destruct a; [|discriminate Hs]. destruct pat; [done | discriminate Hs].
  - rewrite removeFirst_cons.
    destruct (String.prefix pat (String c s)) eqn:Hp.
    + apply prefix_split in Hp.
      apply (f_equal String.length) in Hp.
      rewrite length_append_string in Hp. lia.
    + destruct a as [|c' a].
      * change (String c s = pat +:+ b) in Hs.
        rewrite Hs, prefix_append in Hp. discriminate Hp.
      * change (String c s = String c' (a +:+ pat +:+ b)) in Hs.
        injection Hs as -> ->. simpl. f_equal. apply IH. by exists a, b.
Qed.

(** X15.  The label of a subreddit node carries the prefix once in the two
    usual cases: an identity that starts with [r/] is shown as it is, and
    an identity in which [r/] does not occur is shown with [r/] put in
    front.  Wherever [r/] occurs in the identity, its first occurrence is
    what the prefix replaces, so the label is as long as the identity.  A
    topic node is labelled with its identity. *)
Theorem node_label_prefix d :
  (node_type d = Topic → nodeLabel d = node_id d) ∧
  (node_type d = Subreddit →
     (∀ rest, node_id d = "r/" +:+ rest → nodeLabel d = node_id d) ∧
     (¬ occursIn "r/" (node_id d) → nodeLabel d = "r/" +:+ node_id d) ∧
     (occursIn "r/" (node_id d) →
        String.length (nodeLabel d) = String.length (node_id d))).
Proof.
  unfold nodeLabel. split; [by intros ->|]. intros ->. split; [|split].
  - intros rest ->. by rewrite removeFirst_at_start.
  - intros Hno. by rewrite removeFirst_absent.
  - intros Hocc. apply removeFirst_present in Hocc.
    rewrite length_append_string. simpl in *. lia.
Qed.

Lemma node_label_prefix_witness :
  node_type (gamingNode 50) = Subreddit ∧
  nodeLabel (gamingNode 50) = "r/gaming" ∧
  nodeLabel (mkNode "gaming" Subreddit 1 50 None None) = "r/gaming" ∧
  nodeLabel chessNode = "Chess".
Proof.
  split; [reflexivity|].
  split; [|split].
  - exact (proj1 (proj2 (node_label_prefix (gamingNode 50)) eq_refl) "gaming" eq_refl).
  - apply (proj1 (proj2 (proj2 (node_label_prefix
                                  (mkNode "gaming" Subreddit 1 50 None None))
                           eq_refl))).
    intros Hocc. apply removeFirst_present in Hocc. discriminate Hocc.
  - exact (proj1 (node_label_prefix chessNode) eq_refl).
Defined.

(** ** Reddit activity *)

Lemma mapThrowing_Normal {A B : Type} (f : A → Completion B) items ys :
  mapThrowing f items = Normal ys ↔ Forall2 (λ x y, f x = Normal y) items ys.
Proof.
  revert ys. induction items as [|x items IH]; intros ys; simpl.
  - split.
    + intros [= <-]. constructor.
    + intros H. by inversion H.
  - destruct (f x) as [y|] eqn:Hfx; simpl.
    + destruct (mapThrowing f items) as [ys'|] eqn:Hm; simpl.
      * split.
        -- intros [= <-]. constructor; [done|]. by apply IH.
        -- intros H. inversion H as [|? y0 ? ys0 Hy Hrest]; subst.
           apply IH in Hrest. congruence.
      * split; [done|].
        intros H. inversion H as [|? y0 ? ys0 Hy Hrest]; subst.
        apply IH in Hrest. discriminate Hrest.
    + split; [done|].
      intros H. inversion H as [|? y0 ? ys0 Hy Hrest]; subst. congruence.
Qed.

Section RedditProperties.

Variable Num : Type.
Variable isZero : Num → bool.
Variable JSON_parse : JSValue Num → option (JSValue Num).

Lemma parseChild_describes (child : JSValue Num) a :
  parseChild isZero child = Normal a ↔ describes isZero child a.
Proof.
  unfold parseChild, describes. split.
  - destruct (get child "kind") as [k|] eqn:Hk; simpl; [|done].
    destruct (get child "data") as [d|] eqn:Hd; simpl; [|done].
    destruct (get d "subreddit") as [sub|] eqn:Hsub; simpl; [|done].
    destruct (get d "title") as [ttl|] eqn:Httl; simpl; [|done].
    destruct (get d "body") as [b|] eqn:Hbody; simpl; [|done].
    destruct (truthy isZero b) eqn:Hb; simpl.
    + destruct (get d "score") as [sc|] eqn:Hsc; simpl; [|done].
      intros [= <-]. exists d, b. simpl. rewrite Hb. by repeat split.
    + destruct (get d "selftext") as [st|] eqn:Hst; simpl; [|done].
      destruct (get d "score") as [sc|] eqn:Hsc; simpl; [|done].
      intros [= <-]. exists d, b. simpl. rewrite Hb. by repeat split.
  - intros (d & b & Hk & Hd & Hsub & Httl & Hsc & Hbody & Hb).
    rewrite Hk. simpl. rewrite Hd. simpl. rewrite Hsub. simpl.
    rewrite Httl. simpl. rewrite Hbody. simpl.
    destruct (truthy isZero b); simpl.
    + rewrite Hsc. simpl. subst b. by destruct a.
    + rewrite Hb. simpl. rewrite Hsc. simpl. by destruct a.
Qed.

(** X16.  Whatever [parseRedditResponse] returns was in the reply: a
    returned list means the reply had no truthy [error], a truthy [data]
    and truthy [data.children], and the list is either empty, for children
    of length zero, or holds one activity per child of the array, in
    order, each with the fields of its child. *)
Theorem parsed_listing_is_faithful (json : JSValue Num) acts :
  parseRedditResponse isZero json = Normal acts →
  ∃ err d children,
    get json "error" = Normal err ∧ truthy isZero err = false ∧
    get json "data" = Normal d ∧ truthy isZero d = true ∧
    get d "children" = Normal children ∧ truthy isZero children = true ∧
    ((lengthIsZero isZero children = true ∧ acts = []) ∨
     (∃ items, children = JArr items ∧ items ≠ [] ∧
        Forall2 (describes isZero) items acts)).
Proof.
  unfold parseRedditResponse.
  destruct (get json "error") as [err|] eqn:He; simpl; [|done].
  destruct (truthy isZero err) eqn:Hte; [done|].
  destruct (get json "data") as [d|] eqn:Hd; simpl; [|done].
  destruct (truthy isZero d) eqn:Htd; simpl; [|done].
  destruct (get d "children") as [children|] eqn:Hc; simpl; [|done].
  destruct (truthy isZero children) eqn:Htc; simpl; [|done].
  intros H. exists err, d, children. do 6 (split; [done|]).
  destruct (lengthIsZero isZero children) eqn:Hz.
  - left. split; [done|]. by injection H as <-.
  - right. destruct children as [| | | | |items|]; try done.
    exists items. split; [done|]. split.
    + intros ->. discriminate Hz.
    + apply mapThrowing_Normal in H.
      eapply Forall2_impl; [|exact H].
      intros c a Hca. by apply parseChild_describes.
Qed.

(** X17.  A reply with no truthy [error] whose [data.children] is an array
    parses to the activities its children describe, one per child and in
    order; an empty array gives the empty list and no error.  A truthy
    [error] makes the parse throw whatever [data] holds. *)
Theorem listing_parses (json d : JSValue Num) err items acts :
  get json "error" = Normal err →
  get json "data" = Normal d →
  get d "children" = Normal (JArr items) →
  Forall2 (describes isZero) items acts →
  parseRedditResponse isZero json =
    if truthy isZero err then Throws else Normal acts.
Proof.
  intros He Hd Hc Hacts. unfold parseRedditResponse.
  rewrite He. simpl. destruct (truthy isZero err); [done|].
  rewrite Hd. simpl.
  assert (Htd : truthy isZero d = true).
  { destruct d as [| | | | | |fields]; simpl in Hc; try done;
      by injection Hc. }
  rewrite Htd, Hc. simpl.
  destruct items as [|c items].
  - rewrite bool_decide_eq_true_2 by done. by inversion Hacts.
  - rewrite bool_decide_eq_false_2 by done.
    apply mapThrowing_Normal.
    eapply Forall2_impl; [|exact Hacts].
    intros c' a Hca. by apply parseChild_describes.
Qed.

(** X18.  When [generateUserGraph] builds its prompt from the activity
    log, the log is the non-empty parse of a reply that came with an [ok]
    status: from the wrapping proxy, out of the string under [contents],
    or, that proxy having failed, from the direct proxy.  A failed or
    empty fetch never reaches the prompt. *)
Theorem activity_log_has_a_source (reply1 reply2 : FetchReply Num) :
  usesActivityLog (fetchRedditUserActivity isZero JSON_parse reply1 reply2) = true →
  ∃ json acts,
    fetchRedditUserActivity isZero JSON_parse reply1 reply2 = Some acts ∧
    acts ≠ [] ∧ parseRedditResponse isZero json = Normal acts ∧
    ((∃ wrapper contents,
        reply1 = Replied true (Some wrapper) ∧
        get wrapper "contents" = Normal contents ∧
        truthy isZero contents = true ∧ JSON_parse contents = Some json) ∨
     (viaAllOrigins isZero JSON_parse reply1 = Throws ∧
      reply2 = Replied true (Some json))).
Proof.
  unfold fetchRedditUserActivity.
  destruct (viaAllOrigins isZero JSON_parse reply1) as [acts|] eqn:H1.
  - intros Hu. destruct acts as [|a acts]; [done|]. clear Hu.
    unfold viaAllOrigins in H1.
    destruct reply1 as [|[] [wrapper|]]; simpl in H1; try done.
    destruct (get wrapper "contents") as [contents|] eqn:Hc; simpl in H1; [|done].
    destruct (truthy isZero contents) eqn:Ht; simpl in H1; [|done].
    destruct (JSON_parse contents) as [json|] eqn:Hj; [|done].
    exists json, (a :: acts). split; [done|]. split; [done|]. split; [done|].
    left. by exists wrapper, contents.
  - destruct (viaCorsProxy isZero reply2) as [acts|] eqn:H2; [|done].
    intros Hu. destruct acts as [|a acts]; [done|]. clear Hu.
    unfold viaCorsProxy in H2.
    destruct reply2 as [|[] [json|]]; simpl in H2; try done.
    exists json, (a :: acts). split; [done|]. split; [done|]. split; [done|].
    by right.
Qed.

End RedditProperties.

Lemma parsed_listing_is_faithful_witness :
  parseRedditResponse isZeroZ listing = Normal listingActivity ∧
  ∃ err d children,
    get listing "error" = Normal err ∧ truthy isZeroZ err = false ∧
    get listing "data" = Normal d ∧ truthy isZeroZ d = true ∧
    get d "children" = Normal children ∧ truthy isZeroZ children = true ∧
    ((lengthIsZero isZeroZ children = true ∧ listingActivity = []) ∨
     (∃ items, children = JArr items ∧ items ≠ [] ∧
        Forall2 (describes isZeroZ) items listingActivity)).
Proof.
  assert (H : parseRedditResponse isZeroZ listing = Normal listingActivity)
    by reflexivity.
  split; [exact H|].
  exact (parsed_listing_is_faithful Z isZeroZ listing listingActivity H).
Defined.

Lemma listing_parses_witness :
  Forall2 (describes isZeroZ) [commentChild; postChild] listingActivity ∧
  parseRedditResponse isZeroZ listing = Normal listingActivity.
Proof.
  assert (H1 : describes isZeroZ commentChild
                 (mkActivity (JStr "t1") (JStr "gaming") JUndefined (JStr "nice") (JNum 3))).
  { exists (JObj [("subreddit", JStr "gaming"); ("body", JStr "nice"); ("score", JNum 3)]),
           (JStr "nice").
    repeat split; reflexivity. }
  assert (H2 : describes isZeroZ postChild
                 (mkActivity (JStr "t3") (JStr "chess") (JStr "Endgames") (JStr "text")
                             (JNum 10))).
  { exists (JObj [("subreddit", JStr "chess"); ("title", JStr "Endgames");
                  ("selftext", JStr "text"); ("score", JNum 10)]),
           JUndefined.
    repeat split; reflexivity. }
  assert (Hall : Forall2 (describes isZeroZ) [commentChild; postChild] listingActivity)
    by (repeat constructor; assumption).
  split; [exact Hall|].
  exact (listing_parses Z isZeroZ listing listingData JUndefined
           [commentChild; postChild] listingActivity eq_refl eq_refl eq_refl Hall).
Defined.

Lemma activity_log_has_a_source_witness :
  let r1 := Replied false (Some (JObj [("contents", JStr "listing")])) in
  let r2 := Replied true (Some listing) in
  usesActivityLog (fetchRedditUserActivity isZeroZ parseListing r1 r2) = true ∧
  fetchRedditUserActivity isZeroZ parseListing r1 r2 = Some listingActivity ∧
  ∃ json acts,
    fetchRedditUserActivity isZeroZ parseListing r1 r2 = Some acts ∧
    acts ≠ [] ∧ parseRedditResponse isZeroZ json = Normal acts ∧
    ((∃ wrapper contents,
        r1 = Replied true (Some wrapper) ∧
        get wrapper "contents" = Normal contents ∧
        truthy isZeroZ contents = true ∧ parseListing contents = Some json) ∨
     (viaAllOrigins isZeroZ parseListing r1 = Throws ∧
      r2 = Replied true (Some json))).
Proof.
  intros r1 r2.
  assert (Hu : usesActivityLog (fetchRedditUserActivity isZeroZ parseListing r1 r2) = true)
    by reflexivity.
  split; [exact Hu|]. split; [reflexivity|].
  exact (activity_log_has_a_source Z isZeroZ parseListing r1 r2 Hu).
Defined.

(** ** The loading screen *)

Lemma loadingStep_invariant e s : loadingInvariant s → loadingInvariant (loadingStep e s).
Proof.
  unfold loadingInvariant, loadingStep, loadingEffect.
  change (length STEPS) with 7%nat. intros (Hle & Ht & Hc).
  destruct e.
  - destruct (stepTimer s) eqn:Hst; [|by rewrite Hst].
    pose proof (proj1 Ht eq_refl) as Hlt. destruct (Hc Hlt) as [Hc1 Hc2].
    simpl. case_bool_decide; simpl.
    + split; [lia|]. split; [split; [done | lia] | lia].
    + split; [lia|]. split; [split; [lia | done] | done].
  - destruct (completeTimers s) as [|k] eqn:Hk; simpl.
    + rewrite Hk. done.
    + split; [done|]. split; [done|]. intros Hlt. destruct (Hc Hlt). lia.
  - case_bool_decide; simpl.
    + split; [done|]. split; [split; [done | lia] | lia].
    + split; [done|]. split; [split; [lia | done] |]. intros _. apply Hc. lia.
Qed.

Lemma loadingStep_once e s :
  isParentRerender e = false → loadingInvariant s →
  (stepIndex s = length STEPS → (completeTimers s + completions s = 1)%nat) →
  stepIndex (loadingStep e s) = length STEPS →
  (completeTimers (loadingStep e s) + completions (loadingStep e s) = 1)%nat.
Proof.
  unfold loadingInvariant, loadingStep, loadingEffect.
  change (length STEPS) with 7%nat. intros He (Hle & Ht & Hc) Hone.
  destruct e; [| |discriminate He].
  - destruct (stepTimer s) eqn:Hst; [|exact Hone].
    pose proof (proj1 Ht eq_refl) as Hlt. destruct (Hc Hlt) as [Hc1 Hc2].
    simpl. case_bool_decide; simpl; lia.
  - destruct (completeTimers s) as [|k] eqn:Hk; simpl.
    + rewrite Hk. exact Hone.
    + intros Hs. specialize (Hone Hs). lia.
Qed.

(** X19.  Whatever timers fire and however often the parent renders, the
    loading screen never goes past its seven steps, a step timeout is
    armed exactly while a step is left to show, and [onComplete] is
    neither armed nor called before all seven steps were shown.  If the
    parent does not render in between, [onComplete] is armed exactly once:
    at the seventh step one timeout is pending or one call was made, never
    more. *)
Theorem loading_completes_after_seven_steps evs :
  let s := loadingRun evs loadingMounted in
  (stepIndex s ≤ 7)%nat ∧
  (stepTimer s = true ↔ (stepIndex s < 7)%nat) ∧
  ((stepIndex s < 7)%nat → completeTimers s = 0%nat ∧ completions s = 0%nat) ∧
  (forallb (λ e, negb (isParentRerender e)) evs = true → stepIndex s = 7%nat →
     (completeTimers s + completions s = 1)%nat).
Proof.
  induction evs as [|e evs IH] using rev_ind; simpl.
  - split; [lia|]. split; [split; [lia | done]|]. split; [done|]. discriminate.
  - unfold loadingRun in *. rewrite fold_left_app. simpl.
    destruct IH as (H1 & H2 & H3 & H4).
    assert (Hinv : loadingInvariant (fold_left (λ s e, loadingStep e s) evs loadingMounted))
      by (split; [exact H1|]; split; [exact H2 | exact H3]).
    destruct (loadingStep_invariant e _ Hinv) as (G1 & G2 & G3).
    split; [exact G1|]. split; [exact G2|]. split; [exact G3|].
    rewrite forallb_app. simpl. intros Hev Hs.
    apply andb_true_iff in Hev as [Hevs He].
    rewrite andb_true_r in He. apply negb_true_iff in He.
    by apply (loadingStep_once e _ He Hinv (H4 Hevs)).
Qed.

Lemma loading_completes_after_seven_steps_witness :
  let evs := [StepTimeout; StepTimeout; StepTimeout; StepTimeout; StepTimeout;
              StepTimeout; StepTimeout; CompleteTimeout; StepTimeout] in
  forallb (λ e, negb (isParentRerender e)) evs = true ∧
  stepIndex (loadingRun evs loadingMounted) = 7%nat ∧
  (completeTimers (loadingRun evs loadingMounted)
   + completions (loadingRun evs loadingMounted) = 1)%nat.
Proof.
  intros evs.
  assert (H1 : forallb (λ e, negb (isParentRerender e)) evs = true) by reflexivity.
  assert (H2 : stepIndex (loadingRun evs loadingMounted) = 7%nat) by reflexivity.
  split; [exact H1|]. split; [exact H2|].
  exact (proj2 (proj2 (proj2 (loading_completes_after_seven_steps evs))) H1 H2).
Defined.

(** ** Asking the graph *)

(** X20.  A search that was issued always ends with the spinner off and a
    text to show that is not empty: the model's answer, the stand-in
    sentence when the answer has no text, or the message of the [catch]
    block when the call threw; the query is left as typed.  A query that
    trims to nothing issues no request and changes nothing. *)
Theorem search_always_answers trim resp s :
  let s1 := (searchSubmitted trim s).1 in
  let s2 := searchSettled (searchGraphContext resp) s1 in
  (if bool_decide (trim (searchQuery s) = EmptyString)
   then searchSubmitted trim s = (s, false)
   else (searchSubmitted trim s).2 = true ∧ isSearching s1 = true ∧
        searchResult s1 = None) ∧
  isSearching s2 = false ∧ searchQuery s2 = searchQuery s ∧
  ∃ t, searchResult s2 = Some t ∧ t ≠ EmptyString ∧
       match resp with
       | CallThrew => t = "Neural network unavailable."
       | Response (Some a) =>
           t = if bool_decide (a = EmptyString)
               then "I couldn't find a clear answer in your interest graph." else a
       | Response None => t = "I couldn't find a clear answer in your interest graph."
       end.
Proof.
  intros s1 s2. subst s1 s2. unfold searchSubmitted. simpl.
  split; [by case_bool_decide|].
  split; [by destruct (searchGraphContext resp)|].
  split; [by destruct (searchGraphContext resp), (bool_decide _)|].
  destruct resp as [|[a|]]; simpl.
  - eexists. by repeat split.
  - case_bool_decide as Ha; eexists; by repeat split.
  - eexists. by repeat split.
Qed.
